(** * Identity and license managers of usenet-sync-app (src-tauri)

    A shallow embedding of [src/identity/mod.rs] and [src/license/mod.rs].

    - The OS keyring (crate [keyring], service ["UsenetSync"]) is a finite
      map from entry names to stored values.  Every value in the keyring is
      a string; a value written with [serde_json::to_string] of one of the
      derived records is kept as that record (serde_json reads it back
      unchanged), every other value is kept as its text.
    - [Utc::now()] and [SystemTime::now()] read a wall clock [clock] at a
      counter that advances at every reading, so two readings in one call
      may differ.  [OsRng] key generation reads a stream of key pairs in
      the same way.
    - Every [System::new_all()] of [sysinfo] is a new snapshot of the
      machine, read at a third counter: the CPU frequency it reports and
      the order in which its [HashMap] of network interfaces iterates may
      differ from one snapshot to the next.
    - chrono's [Duration::days] and [DateTime + Duration] panic outside
      chrono's range; a panic ends the call with [Panicked].
    - SHA3-256 and the Ed25519 curve arithmetic are uninterpreted functions
      (Section variables); everything this repository computes around them
      (hex encoding, concatenation, truncation, comparisons) is written out. *)

From Stdlib Require Import ZArith List Ascii Lia.
From Stdlib Require Import Strings.Byte.
From Stdlib Require String.
From stdpp Require Import base gmap strings list.

Local Open Scope Z_scope.

(* ------------------------------------------------------------------ *)
(** ** Byte and text helpers ([hex], [to_le_bytes], [to_string]) *)

(** [bytes()] of a Rust [&str]. *)
Definition as_bytes (s : string) : list byte := String.list_byte_of_string s.

Definition hex_digit (n : N) : ascii :=
  match n with
  | 0%N => "0" | 1%N => "1" | 2%N => "2" | 3%N => "3"
  | 4%N => "4" | 5%N => "5" | 6%N => "6" | 7%N => "7"
  | 8%N => "8" | 9%N => "9" | 10%N => "a" | 11%N => "b"
  | 12%N => "c" | 13%N => "d" | 14%N => "e" | _ => "f"
  end%char.

(** [hex::encode]: two lower-case digits per byte, high nibble first. *)
Fixpoint hex_encode (bs : list byte) : string :=
  match bs with
  | [] => String.EmptyString
  | b :: bs' =>
      let n := Byte.to_N b in
      String.String (hex_digit (N.div n 16))
        (String.String (hex_digit (N.modulo n 16)) (hex_encode bs'))
  end.

(** Reading hex digits back (used to show [hex_encode] loses nothing). *)
Definition hex_value (c : ascii) : N :=
  match c with
  | "0" => 0 | "1" => 1 | "2" => 2 | "3" => 3 | "4" => 4 | "5" => 5
  | "6" => 6 | "7" => 7 | "8" => 8 | "9" => 9 | "a" => 10 | "b" => 11
  | "c" => 12 | "d" => 13 | "e" => 14 | "f" => 15 | _ => 0
  end%char%N.

Fixpoint hex_decode (s : string) : list byte :=
  match s with
  | String.String c1 (String.String c2 s') =>
      match Byte.of_N (hex_value c1 * 16 + hex_value c2) with
      | Some b => b :: hex_decode s'
      | None => x00 :: hex_decode s'
      end
  | _ => []
  end.

(** [i64::to_le_bytes]: eight bytes of the two's complement, low first. *)
Definition to_le_bytes64 (z : Z) : list byte :=
  map (fun i : nat =>
         match Byte.of_N (Z.to_N (Z.land (Z.shiftr z (8 * Z.of_nat i)) 255)) with
         | Some b => b
         | None => x00
         end) (seq 0 8).

Definition digit_char (n : nat) : ascii := ascii_of_nat (48 + n).

(** [u32::to_string]: decimal digits. *)
Fixpoint nat_to_string_aux (fuel n : nat) (acc : string) : string :=
  match fuel with
  | O => acc
  | S fuel' =>
      let acc' := String.String (digit_char (Nat.modulo n 10)) acc in
      if Nat.ltb n 10 then acc' else nat_to_string_aux fuel' (Nat.div n 10) acc'
  end.

Definition nat_to_string (n : nat) : string :=
  nat_to_string_aux (S n) n String.EmptyString.

(** [str::parse::<u32>()]: an optional [+], then at least one decimal
    digit and nothing else, with a value below 2^32. *)
Fixpoint parse_digits (s : string) (acc : Z) : option Z :=
  match s with
  | String.EmptyString => Some acc
  | String.String c s' =>
      let n := Z.of_nat (nat_of_ascii c) in
      if (48 <=? n) && (n <=? 57) then parse_digits s' (acc * 10 + (n - 48))
      else None
  end.

Definition parse_u32 (s : string) : option Z :=
  let body := match s with
              | String.String "+"%char s' => s'
              | _ => s
              end in
  match body with
  | String.EmptyString => None
  | _ =>
      match parse_digits body 0 with
      | Some v => if v <? 2 ^ 32 then Some v else None
      | None => None
      end
  end.

(* ------------------------------------------------------------------ *)
(** ** Data model *)

Module ImmutableIdentity.
Record t := mk {
  user_id : string;
  public_key : list byte;
  created_at : Z;
  device_fingerprint : string;
  version : Z
}.
End ImmutableIdentity.

Module IdentityProof.
Record t := mk {
  user_id : string;
  timestamp : Z;
  nonce : list byte;
  signature : list byte
}.
End IdentityProof.

Inductive LicenseType := Trial | Personal | Professional | Enterprise | Lifetime.

(** [format!("{:?}", license_type)] *)
Definition license_type_debug (t : LicenseType) : string :=
  match t with
  | Trial => "Trial"
  | Personal => "Personal"
  | Professional => "Professional"
  | Enterprise => "Enterprise"
  | Lifetime => "Lifetime"
  end.

Module LicenseFeatures.
Record t := mk {
  max_storage_gb : option Z;
  max_folders : option Z;
  max_files : option Z;
  max_connections : Z;
  parallel_uploads : Z;
  parallel_downloads : Z;
  encryption_enabled : bool;
  private_shares : bool;
  password_shares : bool;
  auto_resume : bool;
  scheduled_sync : bool;
  api_access : bool;
  priority_support : bool
}.

Definition trial : t :=
  mk (Some 10) (Some 100) (Some 1000) 2 1 2 true false false false false false false.
Definition personal : t :=
  mk (Some 1000) (Some 10000) (Some 100000) 10 4 8 true true true true true false false.
Definition professional : t :=
  mk (Some 10000) None None 30 10 20 true true true true true true true.
Definition enterprise : t :=
  mk None None None 60 20 40 true true true true true true true.
Definition lifetime : t := enterprise.
End LicenseFeatures.

Module License.
Record t := mk {
  license_id : string;
  user_id : string;
  license_type : LicenseType;
  activated_at : Z;
  expires_at : option Z;
  device_fingerprint : string;
  features : LicenseFeatures.t;
  signature : string;
  is_active : bool;
  activation_count : Z;
  max_activations : Z
}.
End License.

Module LicenseKey.
Record t := mk {
  key : string;
  license_type : LicenseType;
  duration_days : option Z;
  max_activations : Z;
  features : LicenseFeatures.t
}.
End LicenseKey.

(** An Ed25519 key pair as produced by [Keypair::generate]. *)
Record Keypair := mkKeypair { kp_secret : list byte; kp_public : list byte }.

(** A value held by the keyring. *)
Inductive entry :=
| EIdentity (i : ImmutableIdentity.t)   (* serde_json::to_string(&identity) *)
| ELicense (l : License.t)              (* serde_json::to_string(license) *)
| EText (s : string).                   (* any other text *)

(** Errors the two managers can return ([anyhow::Error]). *)
Inductive error :=
| NoEntry                  (* keyring::Error::NoEntry from get_password *)
| SerdeError               (* serde_json could not read the record *)
| ClockError               (* SystemTime before UNIX_EPOCH *)
| TrialAlreadyUsed         (* "Trial already used for this identity" *)
| DeviceVerificationFailed (* "Device verification failed" *)
| ActivationLimitReached   (* "License activation limit reached" *)
| Base64Error              (* base64::DecodeError *)
| InvalidLicenseKeyFormat  (* "Invalid license key format" *)
| SignatureError           (* ed25519::SignatureError *)
| Panicked.                (* not an error value: a panic unwinding out of the call *)

Inductive res (A : Type) := Ok (a : A) | Err (e : error).
Arguments Ok {A} a.
Arguments Err {A} e.

(** The keyring, the identity manager's cache and the three entropy
    counters (clock readings, generated key pairs, [sysinfo] snapshots). *)
Record World := mkWorld {
  store : gmap string entry;
  identity_cache : option ImmutableIdentity.t;
  clock_tick : nat;
  rng_tick : nat;
  sys_tick : nat
}.

(* ------------------------------------------------------------------ *)
(** ** A state and error monad over [World] *)

Definition M (A : Type) := World -> res A * World.

Definition ret {A} (a : A) : M A := fun w => (Ok a, w).
Definition fail {A} (e : error) : M A := fun w => (Err e, w).
Definition bind {A B} (c : M A) (k : A -> M B) : M B :=
  fun w => match c w with
           | (Ok a, w') => k a w'
           | (Err e, w') => (Err e, w')
           end.

Notation "'let*' x ':=' c 'in' k" := (bind c (fun x => k))
  (at level 200, x name, c at level 100, k at level 200).

Definition gets {A} (f : World -> A) : M A := fun w => (Ok (f w), w).

Definition set_store (s : gmap string entry) (w : World) : World :=
  mkWorld s (identity_cache w) (clock_tick w) (rng_tick w) (sys_tick w).
Definition set_cache (c : option ImmutableIdentity.t) (w : World) : World :=
  mkWorld (store w) c (clock_tick w) (rng_tick w) (sys_tick w).

(** [Entry::new(service, name).get_password()]. *)
Definition get_password (name : string) : M entry :=
  fun w => match store w !! name with
           | Some e => (Ok e, w)
           | None => (Err NoEntry, w)
           end.

(** [get_password] whose error is matched on rather than propagated. *)
Definition try_get_password (name : string) : M (option entry) :=
  gets (fun w => store w !! name).

(** [Entry::new(service, name).set_password(value)]. *)
Definition set_password (name : string) (v : entry) : M unit :=
  fun w => (Ok tt, set_store (<[name := v]> (store w)) w).

(** [let _ = Entry::new(service, name).delete_password();] *)
Definition delete_password (name : string) : M unit :=
  fun w => (Ok tt, set_store (delete name (store w)) w).

Definition write_cache (c : option ImmutableIdentity.t) : M unit :=
  fun w => (Ok tt, set_cache c w).

(* ------------------------------------------------------------------ *)
(** ** [base64] (standard alphabet, padded) *)

Definition byte_of_N (n : N) : byte :=
  match Byte.of_N n with Some b => b | None => x00 end.

Definition b64_alphabet : string :=
  "ABCDEFGHIJKLMNOPQRSTUVWXYZabcdefghijklmnopqrstuvwxyz0123456789+/".

Definition b64_char (n : N) : ascii :=
  match String.get (N.to_nat n) b64_alphabet with Some c => c | None => "A"%char end.

Definition b64_value (c : ascii) : option N :=
  let n := N_of_ascii c in
  if (65 <=? n)%N && (n <=? 90)%N then Some (n - 65)%N
  else if (97 <=? n)%N && (n <=? 122)%N then Some (n - 71)%N
  else if (48 <=? n)%N && (n <=? 57)%N then Some (n + 4)%N
  else if (n =? 43)%N then Some 62%N
  else if (n =? 47)%N then Some 63%N
  else None.

(** [base64::encode] *)
Fixpoint base64_encode_bytes (bs : list byte) : list ascii :=
  match bs with
  | b1 :: b2 :: b3 :: rest =>
      let n := (Byte.to_N b1 * 65536 + Byte.to_N b2 * 256 + Byte.to_N b3)%N in
      b64_char (n / 262144) :: b64_char (n / 4096 mod 64)
        :: b64_char (n / 64 mod 64) :: b64_char (n mod 64) :: base64_encode_bytes rest
  | [b1; b2] =>
      let n := (Byte.to_N b1 * 65536 + Byte.to_N b2 * 256)%N in
      [b64_char (n / 262144); b64_char (n / 4096 mod 64); b64_char (n / 64 mod 64); "="%char]
  | [b1] =>
      let n := (Byte.to_N b1 * 65536)%N in
      [b64_char (n / 262144); b64_char (n / 4096 mod 64); "="%char; "="%char]
  | [] => []
  end.

Definition base64_encode (bs : list byte) : string :=
  String.string_of_list_ascii (base64_encode_bytes bs).

(** [base64::decode]: groups of four symbols; one or two [=] may pad the
    last group, whose unused low bits must be zero. *)
Fixpoint base64_decode_chars (cs : list ascii) : option (list byte) :=
  match cs with
  | [] => Some []
  | [c1; c2; "="%char; "="%char] =>
      match b64_value c1, b64_value c2 with
      | Some v1, Some v2 =>
          let n := (v1 * 64 + v2)%N in
          if (n mod 16 =? 0)%N then Some [byte_of_N (n / 16)] else None
      | _, _ => None
      end
  | [c1; c2; c3; "="%char] =>
      match b64_value c1, b64_value c2, b64_value c3 with
      | Some v1, Some v2, Some v3 =>
          let n := (v1 * 4096 + v2 * 64 + v3)%N in
          if (n mod 4 =? 0)%N then Some [byte_of_N (n / 1024); byte_of_N (n / 4 mod 256)]
          else None
      | _, _, _ => None
      end
  | c1 :: c2 :: c3 :: c4 :: rest =>
      match b64_value c1, b64_value c2, b64_value c3, b64_value c4 with
      | Some v1, Some v2, Some v3, Some v4 =>
          let n := (v1 * 262144 + v2 * 4096 + v3 * 64 + v4)%N in
          match base64_decode_chars rest with
          | Some bs =>
              Some (byte_of_N (n / 65536) :: byte_of_N (n / 256 mod 256)
                      :: byte_of_N (n mod 256) :: bs)
          | None => None
          end
      | _, _, _, _ => None
      end
  | _ => None
  end.

Definition base64_decode (s : string) : option (list byte) :=
  base64_decode_chars (String.list_ascii_of_string s).

(* ------------------------------------------------------------------ *)
(** ** JSON values read by [serde_json::from_slice]

    Numbers without an exponent, strings whose only escapes are a
    backslash before a quote, a backslash or a slash; other JSON text is
    refused. *)

Local Set Warnings "-register-all".

Inductive json :=
| JNull
| JBool (b : bool)
| JInt (z : Z)                    (* a number without fraction *)
| JFloat (mantissa : Z) (scale : nat)  (* mantissa * 10^-scale *)
| JStr (s : string)
| JArr (vs : list json)
| JObj (fs : list (string * json)).

Definition is_ws (c : ascii) : bool :=
  match c with
  | " "%char | "009"%char | "010"%char | "013"%char => true
  | _ => false
  end.

Fixpoint skip_ws (cs : list ascii) : list ascii :=
  match cs with
  | c :: cs' => if is_ws c then skip_ws cs' else cs
  | [] => []
  end.

Definition digit_value (c : ascii) : option Z :=
  let n := Z.of_nat (nat_of_ascii c) in
  if (48 <=? n) && (n <=? 57) then Some (n - 48) else None.

(** The run of decimal digits at the front: (value, count, rest). *)
Fixpoint take_digits (cs : list ascii) (acc : Z) (cnt : nat) : Z * nat * list ascii :=
  match cs with
  | c :: cs' =>
      match digit_value c with
      | Some d => take_digits cs' (acc * 10 + d) (S cnt)
      | None => (acc, cnt, cs)
      end
  | [] => (acc, cnt, [])
  end.

Definition parse_number (cs : list ascii) : option (json * list ascii) :=
  let '(sign, cs1) := match cs with
                      | "-"%char :: r => (-1, r)
                      | _ => (1, cs)
                      end in
  let '(ip, n1, cs2) := take_digits cs1 0 O in
  let leading_zero := match cs1 with
                      | "0"%char :: _ => Nat.ltb 1 n1
                      | _ => false
                      end in
  if Nat.eqb n1 0 || leading_zero then None else
  match cs2 with
  | "."%char :: cs3 =>
      let '(fp, n2, cs4) := take_digits cs3 0 O in
      if Nat.eqb n2 0 then None
      else Some (JFloat (sign * (ip * 10 ^ Z.of_nat n2 + fp)) n2, cs4)
  | _ => Some (JInt (sign * ip), cs2)
  end.

(** The body of a string literal after its opening quote. *)
Fixpoint parse_string_body (cs : list ascii) (acc : list ascii) : option (string * list ascii) :=
  match cs with
  | "034"%char :: r => Some (String.string_of_list_ascii (rev acc), r)
  | "\"%char :: e :: r =>
      match e with
      | "034"%char | "\"%char | "/"%char => parse_string_body r (e :: acc)
      | _ => None
      end
  | c :: r => parse_string_body r (c :: acc)
  | [] => None
  end.

Fixpoint parse_value (fuel : nat) (cs : list ascii) : option (json * list ascii) :=
  match fuel with
  | O => None
  | S f =>
      match skip_ws cs with
      | "n"%char :: "u"%char :: "l"%char :: "l"%char :: r => Some (JNull, r)
      | "t"%char :: "r"%char :: "u"%char :: "e"%char :: r => Some (JBool true, r)
      | "f"%char :: "a"%char :: "l"%char :: "s"%char :: "e"%char :: r => Some (JBool false, r)
      | "034"%char :: r =>
          match parse_string_body r [] with
          | Some (s, r') => Some (JStr s, r')
          | None => None
          end
      | "["%char :: r =>
          match skip_ws r with
          | "]"%char :: r' => Some (JArr [], r')
          | _ =>
              match parse_elements f r with
              | Some (vs, r') => Some (JArr vs, r')
              | None => None
              end
          end
      | "{"%char :: r =>
          match skip_ws r with
          | "}"%char :: r' => Some (JObj [], r')
          | _ =>
              match parse_members f r with
              | Some (fs, r') => Some (JObj fs, r')
              | None => None
              end
          end
      | cs' => parse_number cs'
      end
  end
with parse_elements (fuel : nat) (cs : list ascii) : option (list json * list ascii) :=
  match fuel with
  | O => None
  | S f =>
      match parse_value f cs with
      | Some (v, r) =>
          match skip_ws r with
          | ","%char :: r' =>
              match parse_elements f r' with
              | Some (vs, r'') => Some (v :: vs, r'')
              | None => None
              end
          | "]"%char :: r' => Some ([v], r')
          | _ => None
          end
      | None => None
      end
  end
with parse_members (fuel : nat) (cs : list ascii) : option (list (string * json) * list ascii) :=
  match fuel with
  | O => None
  | S f =>
      match skip_ws cs with
      | "034"%char :: r =>
          match parse_string_body r [] with
          | Some (k, r1) =>
              match skip_ws r1 with
              | ":"%char :: r2 =>
                  match parse_value f r2 with
                  | Some (v, r3) =>
                      match skip_ws r3 with
                      | ","%char :: r4 =>
                          match parse_members f r4 with
                          | Some (fs, r5) => Some ((k, v) :: fs, r5)
                          | None => None
                          end
                      | "}"%char :: r4 => Some ([(k, v)], r4)
                      | _ => None
                      end
                  | None => None
                  end
              | _ => None
              end
          | None => None
          end
      | _ => None
      end
  end.

(** [serde_json::from_slice] to a JSON value: one value, then only
    white space. *)
Definition json_from_slice (bs : list byte) : option json :=
  let cs := map ascii_of_byte bs in
  match parse_value (S (length cs)) cs with
  | Some (v, r) => match skip_ws r with [] => Some v | _ => None end
  | None => None
  end.

(** [serde_json::to_string] of a JSON value (compact form). *)
Definition z_to_string (z : Z) : string :=
  if z <? 0 then "-" +:+ nat_to_string (Z.to_nat (- z)) else nat_to_string (Z.to_nat z).

Fixpoint escape_chars (cs : list ascii) : list ascii :=
  match cs with
  | [] => []
  | c :: r =>
      if Ascii.eqb c "034"%char || Ascii.eqb c "\"%char then "\"%char :: c :: escape_chars r
      else c :: escape_chars r
  end.

Definition json_string_literal (s : string) : string :=
  String.String "034"%char
    (String.string_of_list_ascii (escape_chars (String.list_ascii_of_string s))
       +:+ String.String "034"%char String.EmptyString).

Definition float_to_string (m : Z) (scale : nat) : string :=
  let a := Z.abs m in
  let ip := a / 10 ^ Z.of_nat scale in
  let fp := a mod 10 ^ Z.of_nat scale in
  let fs := nat_to_string (Z.to_nat fp) in
  let pad := String.string_of_list_ascii (repeat "0"%char (scale - String.length fs)) in
  (if m <? 0 then "-" else "") +:+ nat_to_string (Z.to_nat ip) +:+ "." +:+ pad +:+ fs.

Fixpoint json_to_string (v : json) : string :=
  match v with
  | JNull => "null"
  | JBool true => "true"
  | JBool false => "false"
  | JInt z => z_to_string z
  | JFloat m s => float_to_string m s
  | JStr s => json_string_literal s
  | JArr vs =>
      let fix elems (vs : list json) : string :=
        match vs with
        | [] => ""
        | [v] => json_to_string v
        | v :: vs' => json_to_string v +:+ "," +:+ elems vs'
        end in
      "[" +:+ elems vs +:+ "]"
  | JObj fs =>
      let fix members (fs : list (string * json)) : string :=
        match fs with
        | [] => ""
        | [(k, v)] => json_string_literal k +:+ ":" +:+ json_to_string v
        | (k, v) :: fs' =>
            json_string_literal k +:+ ":" +:+ json_to_string v +:+ "," +:+ members fs'
        end in
      "{" +:+ members fs +:+ "}"
  end.

(** Measures used to reason about the printer and the parser: values
    without floats or arrays, their nesting size (a bound on the parser's
    fuel), the members of an object as [json_to_string] prints them, and
    what may follow a value inside an object or at the end of the text. *)
Fixpoint json_plain (v : json) : bool :=
  match v with
  | JFloat _ _ | JArr _ => false
  | JObj fs => forallb (fun kv => json_plain (snd kv)) fs
  | _ => true
  end.

Fixpoint jsize (v : json) : nat :=
  match v with
  | JObj fs => S (list_sum (map (fun kv => S (jsize (snd kv))) fs))
  | _ => 1%nat
  end.

Fixpoint print_members (fs : list (string * json)) : string :=
  match fs with
  | [] => ""
  | [(k, v)] => json_string_literal k +:+ ":" +:+ json_to_string v
  | (k, v) :: fs' =>
      json_string_literal k +:+ ":" +:+ json_to_string v +:+ "," +:+ print_members fs'
  end.

Definition value_end (rest : list ascii) : Prop :=
  match rest with
  | [] => True
  | c :: _ => c = ","%char \/ c = "}"%char
  end.

(* ------------------------------------------------------------------ *)
(** ** [#[derive(Serialize, Deserialize)]] for the license key payload

    A struct is read from a JSON object (unknown members are ignored, a
    member given twice is an error, a missing [Option] member is [None])
    or from an array of its fields in declaration order. *)

Definition occurrences (k : string) (fs : list (string * json)) : list json :=
  map snd (filter (fun p => String.eqb (fst p) k) fs).

Definition required {A} (conv : json -> option A) (k : string)
    (fs : list (string * json)) : option A :=
  match occurrences k fs with
  | [v] => conv v
  | _ => None
  end.

Definition optional {A} (conv : json -> option A) (k : string)
    (fs : list (string * json)) : option (option A) :=
  match occurrences k fs with
  | [] => Some None
  | [JNull] => Some None
  | [v] => option_map Some (conv v)
  | _ => None
  end.

Definition optional_value {A} (conv : json -> option A) (v : json) : option (option A) :=
  match v with
  | JNull => Some None
  | _ => option_map Some (conv v)
  end.

Definition int_in (lo hi : Z) (v : json) : option Z :=
  match v with
  | JInt z => if (lo <=? z) && (z <? hi) then Some z else None
  | _ => None
  end.

Definition as_u32 := int_in 0 (2 ^ 32).
Definition as_u64 := int_in 0 (2 ^ 64).
Definition as_i64 := int_in (- 2 ^ 63) (2 ^ 63).

Definition as_bool (v : json) : option bool :=
  match v with JBool b => Some b | _ => None end.

Definition as_str (v : json) : option string :=
  match v with JStr s => Some s | _ => None end.

Definition license_type_of_json (v : json) : option LicenseType :=
  match v with
  | JStr s =>
      if String.eqb s "Trial" then Some Trial
      else if String.eqb s "Personal" then Some Personal
      else if String.eqb s "Professional" then Some Professional
      else if String.eqb s "Enterprise" then Some Enterprise
      else if String.eqb s "Lifetime" then Some Lifetime
      else None
  | _ => None
  end.

Definition license_type_to_json (t : LicenseType) : json := JStr (license_type_debug t).

Definition features_of_json (v : json) : option LicenseFeatures.t :=
  match v with
  | JObj fs =>
      a ← optional as_u64 "max_storage_gb" fs;
      b ← optional as_u32 "max_folders" fs;
      c ← optional as_u32 "max_files" fs;
      d ← required as_u32 "max_connections" fs;
      e ← required as_u32 "parallel_uploads" fs;
      f ← required as_u32 "parallel_downloads" fs;
      g ← required as_bool "encryption_enabled" fs;
      h ← required as_bool "private_shares" fs;
      i ← required as_bool "password_shares" fs;
      j ← required as_bool "auto_resume" fs;
      k ← required as_bool "scheduled_sync" fs;
      l ← required as_bool "api_access" fs;
      m ← required as_bool "priority_support" fs;
      Some (LicenseFeatures.mk a b c d e f g h i j k l m)
  | JArr [a; b; c; d; e; f; g; h; i; j; k; l; m] =>
      a ← optional_value as_u64 a; b ← optional_value as_u32 b;
      c ← optional_value as_u32 c; d ← as_u32 d; e ← as_u32 e; f ← as_u32 f;
      g ← as_bool g; h ← as_bool h; i ← as_bool i; j ← as_bool j;
      k ← as_bool k; l ← as_bool l; m ← as_bool m;
      Some (LicenseFeatures.mk a b c d e f g h i j k l m)
  | _ => None
  end.

Definition option_to_json {A} (f : A -> json) (o : option A) : json :=
  match o with Some a => f a | None => JNull end.

Definition features_to_json (x : LicenseFeatures.t) : json :=
  JObj [("max_storage_gb", option_to_json JInt (LicenseFeatures.max_storage_gb x));
        ("max_folders", option_to_json JInt (LicenseFeatures.max_folders x));
        ("max_files", option_to_json JInt (LicenseFeatures.max_files x));
        ("max_connections", JInt (LicenseFeatures.max_connections x));
        ("parallel_uploads", JInt (LicenseFeatures.parallel_uploads x));
        ("parallel_downloads", JInt (LicenseFeatures.parallel_downloads x));
        ("encryption_enabled", JBool (LicenseFeatures.encryption_enabled x));
        ("private_shares", JBool (LicenseFeatures.private_shares x));
        ("password_shares", JBool (LicenseFeatures.password_shares x));
        ("auto_resume", JBool (LicenseFeatures.auto_resume x));
        ("scheduled_sync", JBool (LicenseFeatures.scheduled_sync x));
        ("api_access", JBool (LicenseFeatures.api_access x));
        ("priority_support", JBool (LicenseFeatures.priority_support x))].

Definition license_key_of_json (v : json) : option LicenseKey.t :=
  match v with
  | JObj fs =>
      k ← required as_str "key" fs;
      t ← required license_type_of_json "license_type" fs;
      d ← optional as_i64 "duration_days" fs;
      m ← required as_u32 "max_activations" fs;
      f ← required features_of_json "features" fs;
      Some (LicenseKey.mk k t d m f)
  | JArr [k; t; d; m; f] =>
      k ← as_str k; t ← license_type_of_json t; d ← optional_value as_i64 d;
      m ← as_u32 m; f ← features_of_json f;
      Some (LicenseKey.mk k t d m f)
  | _ => None
  end.

Definition license_key_to_json (lk : LicenseKey.t) : json :=
  JObj [("key", JStr (LicenseKey.key lk));
        ("license_type", license_type_to_json (LicenseKey.license_type lk));
        ("duration_days", option_to_json JInt (LicenseKey.duration_days lk));
        ("max_activations", JInt (LicenseKey.max_activations lk));
        ("features", features_to_json (LicenseKey.features lk))].

(** [LicenseManager::decode_license_key] (it uses no state). *)
Definition decode_license_key (key : string) : res LicenseKey.t :=
  match base64_decode key with
  | None => Err Base64Error
  | Some decoded =>
      match json_from_slice decoded with
      | None => Err SerdeError
      | Some v =>
          match license_key_of_json v with
          | None => Err SerdeError
          | Some license_key =>
              if Nat.ltb (String.length (LicenseKey.key license_key)) 32
              then Err InvalidLicenseKeyFormat
              else Ok license_key
          end
      end
  end.

(* ------------------------------------------------------------------ *)
(** ** The identity and license managers *)

(** Run a fallible step and keep its result ([match step { Ok .. Err .. }]). *)
Definition attempt {A} (c : M A) : M (res A) :=
  fun w => let '(r, w') := c w in (Ok r, w').

(** What one [System::new_all()] followed by [refresh_all()] reports of
    the machine, as far as [generate_device_fingerprint] reads it: the brand
    and current frequency (MHz) of [cpus().first()], [total_memory()],
    [host_name()], the interfaces of [networks()] with the [to_string()] of
    their MAC address, in the iteration order of this snapshot's [HashMap],
    [name()] and [kernel_version()]. *)
Record SystemInfo := mkSystemInfo {
  first_cpu : option (string * Z);
  total_memory : Z;
  host_name : option string;
  networks : list (string * string);
  os_name : option string;
  kernel_version : option string
}.

Definition option_bytes (o : option string) : list byte :=
  match o with Some s => as_bytes s | None => [] end.

(** The bytes [generate_device_fingerprint] passes to [hasher.update], in
    order (the [u64] values through [to_le_bytes]). *)
Definition fingerprint_input (sys : SystemInfo) : list byte :=
  match first_cpu sys with
  | Some (brand, frequency) => as_bytes brand ++ to_le_bytes64 frequency
  | None => []
  end
  ++ to_le_bytes64 (total_memory sys)
  ++ option_bytes (host_name sys)
  ++ concat (map (fun '(interface_name, mac) => as_bytes interface_name ++ as_bytes mac)
                 (networks sys))
  ++ option_bytes (os_name sys)
  ++ option_bytes (kernel_version sys).

(** chrono's range. A [Duration] holds at most [i64::MAX] milliseconds
    either way; a [DateTime<Utc>] lies between [NaiveDate::MIN] (January 1
    of year -262143) and the last second of [NaiveDate::MAX] (December 31
    of year 262142), here in seconds since the epoch. *)
Definition max_duration_secs : Z := 9223372036854775.
Definition min_utc_secs : Z := -8334601315200.
Definition max_utc_secs : Z := 8210266876799.

(** A number of days in seconds. *)
Definition days (n : Z) : Z := n * 86400.

(** [Duration::days(d)], [None] where it panics ([checked_mul] by 86400,
    then the bound of [Duration::seconds]). *)
Definition chrono_days (d : Z) : option Z :=
  if (- max_duration_secs <=? days d) && (days d <=? max_duration_secs)
  then Some (days d) else None.

(** [t + duration] on a [DateTime<Utc>], [None] where it panics
    (["`DateTime + Duration` overflowed"]). *)
Definition chrono_add (t duration : Z) : option Z :=
  if (min_utc_secs <=? t + duration) && (t + duration <=? max_utc_secs)
  then Some (t + duration) else None.

(** [t + Duration::days(d)]. *)
Definition chrono_add_days (t d : Z) : option Z :=
  match chrono_days d with
  | Some duration => chrono_add t duration
  | None => None
  end.

(** An instant chrono can represent. *)
Definition in_utc_range (t : Z) : Prop := min_utc_secs <= t <= max_utc_secs.

Definition or_panic {A} (o : option A) : M A :=
  match o with Some a => ret a | None => fail Panicked end.

Section Managers.

(** SHA3-256: the digest of the concatenation of the [update] inputs. *)
Variable sha3_256 : list byte -> list byte.
(** The wall clock ([Utc::now()], [SystemTime::now()]), in seconds since
    the epoch, at each successive reading. *)
Variable clock : nat -> Z.
(** The key pairs [Keypair::generate(&mut OsRng)] draws, in order. *)
Variable os_keypair : nat -> Keypair.
(** The [sysinfo] snapshots [System::new_all()] takes, in order. *)
Variable system_info : nat -> SystemInfo.
(** [PublicKey::from_bytes] on 32 bytes: whether they decode to a point. *)
Variable public_key_decodes : list byte -> bool.
(** [Signature::from_bytes] on 64 bytes: the library's checks of the
    encoding beyond its length. *)
Variable signature_encoding_ok : list byte -> bool.
(** [PublicKey::verify(data, &signature)]: the verification equation. *)
Variable ed25519_verify : list byte -> list byte -> list byte -> bool.

Definition now : M Z :=
  fun w => (Ok (clock (clock_tick w)),
            mkWorld (store w) (identity_cache w) (S (clock_tick w)) (rng_tick w) (sys_tick w)).

Definition generate_keypair : M Keypair :=
  fun w => (Ok (os_keypair (rng_tick w)),
            mkWorld (store w) (identity_cache w) (clock_tick w) (S (rng_tick w)) (sys_tick w)).

(** *** [IdentityManager] ([keyring_user] is ["Identity"]) *)

Definition keyring_user : string := "Identity".
Definition private_key_entry (user_id : string) : string := user_id +:+ "_private".

Definition fingerprint_of (sys : SystemInfo) : string :=
  hex_encode (sha3_256 (fingerprint_input sys)).

(** [generate_device_fingerprint] (always [Ok]): a new snapshot per call. *)
Definition generate_device_fingerprint : M string :=
  fun w => (Ok (fingerprint_of (system_info (sys_tick w))),
            mkWorld (store w) (identity_cache w) (clock_tick w) (rng_tick w) (S (sys_tick w))).

Definition derive_user_id (public_key : list byte) (device_fingerprint : string) : string :=
  "USN-" +:+ hex_encode (firstn 16 (sha3_256 (public_key ++ as_bytes device_fingerprint))).

Definition initialize_identity : M (ImmutableIdentity.t * bool) :=
  let* existing := try_get_password keyring_user in
  match existing with
  | Some (EIdentity identity) =>
      let* _ := write_cache (Some identity) in
      ret (identity, false)
  | Some _ => fail SerdeError
  | None =>
      let* keypair := generate_keypair in
      let* device_fingerprint := generate_device_fingerprint in
      let user_id := derive_user_id (kp_public keypair) device_fingerprint in
      let* secs := now in
      if secs <? 0 then fail ClockError else
      let identity := ImmutableIdentity.mk user_id (kp_public keypair) secs
                        device_fingerprint 1 in
      let* _ := set_password (private_key_entry user_id)
                  (EText (base64_encode (kp_secret keypair))) in
      let* _ := set_password keyring_user (EIdentity identity) in
      let* _ := write_cache (Some identity) in
      ret (identity, true)
  end.

Definition get_current_identity : M ImmutableIdentity.t :=
  let* cache := gets identity_cache in
  match cache with
  | Some identity => ret identity
  | None => let* r := initialize_identity in ret (fst r)
  end.

(** [verify_device] (always [Ok]). *)
Definition verify_device (identity : ImmutableIdentity.t) : M bool :=
  let* current_fingerprint := generate_device_fingerprint in
  ret (String.eqb current_fingerprint (ImmutableIdentity.device_fingerprint identity)).

Definition public_key_from_bytes (bs : list byte) : res (list byte) :=
  if Nat.eqb (length bs) 32 && public_key_decodes bs then Ok bs else Err SignatureError.

Definition signature_from_bytes (bs : list byte) : res (list byte) :=
  if Nat.eqb (length bs) 64 && signature_encoding_ok bs then Ok bs else Err SignatureError.

(** [verify_signature] reads no state. *)
Definition verify_signature (identity : ImmutableIdentity.t) (data signature : list byte)
    : res bool :=
  match public_key_from_bytes (ImmutableIdentity.public_key identity) with
  | Err e => Err e
  | Ok public_key =>
      match signature_from_bytes signature with
      | Err e => Err e
      | Ok sig => if ed25519_verify public_key data sig then Ok true else Ok false
      end
  end.

Definition destroy_identity : M unit :=
  let* cache := gets identity_cache in
  match cache with
  | Some identity =>
      let* _ := delete_password (private_key_entry (ImmutableIdentity.user_id identity)) in
      let* _ := delete_password keyring_user in
      write_cache None
  | None => ret tt
  end.

(** *** [LicenseManager] *)

Definition license_entry (user_id : string) : string := "license_" +:+ user_id.
Definition trial_used_entry (user_id : string) : string := "trial_used_" +:+ user_id.
Definition activations_entry (key : string) : string := "activations_" +:+ key.
Definition activation_entry (key : string) (n : Z) : string :=
  "activation_" +:+ key +:+ "_" +:+ z_to_string n.

Definition domain_string : string := "UsenetSync-License-v1".

Definition generate_license_id (user_id : string) (license_type : LicenseType) : M string :=
  let* timestamp := now in
  ret ("LIC-" +:+ hex_encode (firstn 12 (sha3_256 (as_bytes user_id
         ++ as_bytes (license_type_debug license_type) ++ to_le_bytes64 timestamp)))).

(** [sign_license] (always [Ok]). *)
Definition sign_license (license_id user_id : string) : string :=
  hex_encode (sha3_256 (as_bytes license_id ++ as_bytes user_id ++ as_bytes domain_string)).

Definition verify_license_signature (license : License.t) : bool :=
  String.eqb (License.signature license)
    (sign_license (License.license_id license) (License.user_id license)).

Definition store_license (license : License.t) : M unit :=
  set_password (license_entry (License.user_id license)) (ELicense license).

Definition get_stored_license (user_id : string) : M License.t :=
  let* license_json := get_password (license_entry user_id) in
  match license_json with
  | ELicense license => ret license
  | _ => fail SerdeError
  end.

Definition has_used_trial (user_id : string) : M bool :=
  let* marker := try_get_password (trial_used_entry user_id) in
  match marker with
  | Some _ => ret true
  | None => ret false
  end.

Definition mark_trial_used (user_id : string) : M unit :=
  set_password (trial_used_entry user_id) (EText "true").

Definition get_activation_count (license_key : string) : M Z :=
  let* count := try_get_password (activations_entry license_key) in
  match count with
  | Some (EText s) => ret (match parse_u32 s with Some n => n | None => 0 end)
  | Some _ => ret 0
  | None => ret 0
  end.

Definition record_activation (license_key user_id : string) : M unit :=
  let* count := get_activation_count license_key in
  let* _ := set_password (activations_entry license_key) (EText (z_to_string (count + 1))) in
  set_password (activation_entry license_key (count + 1)) (EText user_id).

Definition activate_trial : M License.t :=
  let* identity := get_current_identity in
  let user_id := ImmutableIdentity.user_id identity in
  let* used := has_used_trial user_id in
  if used then fail TrialAlreadyUsed else
  let* verified := verify_device identity in
  if negb verified then fail DeviceVerificationFailed else
  let* license_id := generate_license_id user_id Trial in
  let* activated_at := now in
  let* expiry_base := now in
  let* expires_at := or_panic (chrono_add_days expiry_base 30) in
  let license := License.mk license_id user_id Trial activated_at
                   (Some expires_at)
                   (ImmutableIdentity.device_fingerprint identity)
                   LicenseFeatures.trial (sign_license license_id user_id) true 1 1 in
  let* _ := store_license license in
  let* _ := mark_trial_used user_id in
  ret license.

Definition activate_paid_license (license_key : string) : M License.t :=
  let* identity := get_current_identity in
  let user_id := ImmutableIdentity.user_id identity in
  match decode_license_key license_key with
  | Err e => fail e
  | Ok decoded =>
      let* verified := verify_device identity in
      if negb verified then fail DeviceVerificationFailed else
      let* activation_count := get_activation_count (LicenseKey.key decoded) in
      if LicenseKey.max_activations decoded <=? activation_count
      then fail ActivationLimitReached else
      let* license_id := generate_license_id user_id (LicenseKey.license_type decoded) in
      let* expires_at :=
        match LicenseKey.duration_days decoded with
        | Some d => let* t := now in let* e := or_panic (chrono_add_days t d) in ret (Some e)
        | None => ret None
        end in
      let* activated_at := now in
      let license := License.mk license_id user_id (LicenseKey.license_type decoded)
                       activated_at expires_at
                       (ImmutableIdentity.device_fingerprint identity)
                       (LicenseKey.features decoded) (sign_license license_id user_id)
                       true (activation_count + 1) (LicenseKey.max_activations decoded) in
      let* _ := store_license license in
      let* _ := record_activation (LicenseKey.key decoded) user_id in
      ret license
  end.

Definition validate_current_license : M (bool * option License.t) :=
  let* identity := get_current_identity in
  let user_id := ImmutableIdentity.user_id identity in
  let* loaded := attempt (get_stored_license user_id) in
  match loaded with
  | Err _ => ret (false, None)
  | Ok license =>
      if negb (String.eqb (License.user_id license) user_id) then ret (false, None) else
      if negb (String.eqb (License.device_fingerprint license)
                 (ImmutableIdentity.device_fingerprint identity))
      then ret (false, None) else
      let* expired :=
        match License.expires_at license with
        | Some expires_at => let* t := now in ret (expires_at <? t)
        | None => ret false
        end in
      if expired then ret (false, None) else
      if negb (verify_license_signature license) then ret (false, None) else
      if negb (License.is_active license) then ret (false, None) else
      ret (true, Some license)
  end.

Definition deactivate_license : M unit :=
  let* identity := get_current_identity in
  let* license := get_stored_license (ImmutableIdentity.user_id identity) in
  let license := License.mk (License.license_id license) (License.user_id license)
                   (License.license_type license) (License.activated_at license)
                   (License.expires_at license) (License.device_fingerprint license)
                   (License.features license) (License.signature license)
                   false (License.activation_count license)
                   (License.max_activations license) in
  store_license license.

(** The public calls of a [LicenseManager], run one after another. *)
Inductive license_call :=
| CallActivateTrial
| CallActivatePaid (license_key : string)
| CallValidate
| CallDeactivate.

Definition run_call (c : license_call) (w : World) : World :=
  match c with
  | CallActivateTrial => snd (activate_trial w)
  | CallActivatePaid k => snd (activate_paid_license k w)
  | CallValidate => snd (validate_current_license w)
  | CallDeactivate => snd (deactivate_license w)
  end.

Fixpoint run_calls (cs : list license_call) (w : World) : World :=
  match cs with
  | [] => w
  | c :: cs' => run_calls cs' (run_call c w)
  end.

End Managers.

Section MoreManagers.

Variable clock : nat -> Z.
(** [rand::RngCore::fill_bytes(&mut OsRng, ..)]: byte [i] of the buffer
    filled at the [n]-th reading of the generator (the counter that
    [Keypair::generate] also advances). *)
Variable os_random : nat -> nat -> byte.
Variable public_key_decodes : list byte -> bool.
(** [Keypair { secret, public }.sign(data).to_bytes()]. *)
Variable ed25519_sign : list byte -> list byte -> list byte -> list byte.

Definition fill_bytes (n : nat) : M (list byte) :=
  fun w => (Ok (map (os_random (rng_tick w)) (seq 0 n)),
            mkWorld (store w) (identity_cache w) (clock_tick w) (S (rng_tick w)) (sys_tick w)).

(** [IdentityManager::sign_data].  The private key entry holds the base64
    text written by [initialize_identity]; a serialized record is JSON text,
    which starts with a brace, not a base64 symbol.  [SecretKey::from_bytes]
    takes exactly 32 bytes. *)
Definition sign_data (identity : ImmutableIdentity.t) (data : list byte) : M (list byte) :=
  let* private_key_b64 := get_password (private_key_entry (ImmutableIdentity.user_id identity)) in
  match private_key_b64 with
  | EText s =>
      match base64_decode s with
      | None => fail Base64Error
      | Some private_key_bytes =>
          if negb (Nat.eqb (length private_key_bytes) 32) then fail SignatureError else
          match public_key_from_bytes public_key_decodes (ImmutableIdentity.public_key identity) with
          | Err e => fail e
          | Ok public => ret (ed25519_sign private_key_bytes public data)
          end
      end
  | _ => fail Base64Error
  end.

(** [IdentityManager::create_identity_proof]: seconds since the epoch
    ([duration_since] fails before it), a 32-byte nonce, and the signature
    of [user_id ++ timestamp.to_le_bytes() ++ nonce]. *)
Definition create_identity_proof (identity : ImmutableIdentity.t) : M IdentityProof.t :=
  let* secs := now clock in
  if secs <? 0 then fail ClockError else
  let* nonce := fill_bytes 32 in
  let proof_data := as_bytes (ImmutableIdentity.user_id identity) ++ to_le_bytes64 secs ++ nonce in
  let* signature := sign_data identity proof_data in
  ret (IdentityProof.mk (ImmutableIdentity.user_id identity) secs nonce signature).

(** [IdentityManager::export_public_identity]: a [json!] object (a
    [serde_json::Map], whose keys iterate in sorted order), printed and
    base64 encoded. *)
Definition export_public_identity (identity : ImmutableIdentity.t) : string :=
  base64_encode (as_bytes (json_to_string (JObj
    [("created_at", JInt (ImmutableIdentity.created_at identity));
     ("public_key", JStr (hex_encode (ImmutableIdentity.public_key identity)));
     ("user_id", JStr (ImmutableIdentity.user_id identity));
     ("version", JInt (ImmutableIdentity.version identity))]))).

(** [LicenseManager::get_remaining_days]: [num_days] of the signed
    duration, which truncates toward zero; the clock is read only for a
    license that expires. *)
Definition get_remaining_days (license : License.t) : M (option Z) :=
  match License.expires_at license with
  | Some expires => let* t := now clock in ret (Some (Z.quot (expires - t) 86400))
  | None => ret None
  end.

(** [LicenseManager::generate_license_key]. *)
Definition generate_license_key (license_type : LicenseType) (duration_days : option Z)
    (max_activations : Z) : M string :=
  let* key_bytes := fill_bytes 32 in
  let features := match license_type with
                  | Trial => LicenseFeatures.trial
                  | Personal => LicenseFeatures.personal
                  | Professional => LicenseFeatures.professional
                  | Enterprise => LicenseFeatures.enterprise
                  | Lifetime => LicenseFeatures.lifetime
                  end in
  let license_key := LicenseKey.mk (hex_encode key_bytes) license_type duration_days
                       max_activations features in
  ret (base64_encode (as_bytes (json_to_string (license_key_to_json license_key)))).

End MoreManagers.

(** The feature set [generate_license_key] gives each license type. *)
Definition features_for (license_type : LicenseType) : LicenseFeatures.t :=
  match license_type with
  | Trial => LicenseFeatures.trial
  | Personal => LicenseFeatures.personal
  | Professional => LicenseFeatures.professional
  | Enterprise => LicenseFeatures.enterprise
  | Lifetime => LicenseFeatures.lifetime
  end.

(* ================================================================== *)
(** * Concrete instances used to evaluate the managers *)

(** A fresh process on a fresh machine: empty keyring, nothing cached. *)
Definition fresh_world : World := mkWorld ∅ None 0 0 0.

(** Toy stand-ins for the cryptographic primitives, used only to run the
    code on concrete inputs: an injective "digest" (the input itself), a
    clock ticking one second per reading from 1700000000, and key pairs
    whose bytes are all [n + 1] (secret) and [n + 101] (public). *)
Definition toy_sha3 (bs : list byte) : list byte := bs.
Definition toy_clock (n : nat) : Z := 1700000000 + Z.of_nat n.
Definition toy_keypair (n : nat) : Keypair :=
  mkKeypair (repeat (byte_of_N (N.of_nat (n + 1))) 32)
            (repeat (byte_of_N (N.of_nat (n + 101))) 32).
(** A machine as [sysinfo] reports it, with the given network interfaces
    (name and MAC address) in iteration order. *)
Definition toy_snapshot (interfaces : list (string * string)) : SystemInfo :=
  mkSystemInfo (Some ("Toy CPU", 3000)) 17179869184 (Some "box") interfaces
    (Some "Linux") (Some "6.1.0").

(** A machine with one network interface: every snapshot is the same. *)
Definition toy_system_info (n : nat) : SystemInfo :=
  toy_snapshot [("eth0", "02:00:00:00:00:01")].

(** A machine with two interfaces whose [HashMap] iterates them in one order
    in the even-numbered snapshots and in the other order in the odd ones. *)
Definition toy_system_info_two_interfaces (n : nat) : SystemInfo :=
  toy_snapshot (if Nat.even n
                then [("eth0", "02:00:00:00:00:01"); ("wlan0", "02:00:00:00:00:02")]
                else [("wlan0", "02:00:00:00:00:02"); ("eth0", "02:00:00:00:00:01")]).

Definition toy_identity : ImmutableIdentity.t :=
  ImmutableIdentity.mk "USN-0123456789abcdef0123456789abcdef"
    (repeat (byte_of_N 7) 32) 1700000000 (fingerprint_of toy_sha3 (toy_system_info 0)) 1.

(** A trial license of [toy_identity], signed as [activate_trial] signs it,
    and the keyring of a process that has it stored and the identity
    cached. *)
Definition toy_license (license_id : string) (signed_license_id : string) : License.t :=
  License.mk license_id (ImmutableIdentity.user_id toy_identity) Trial 1700000000
    (Some (1700000000 + days 30)) (ImmutableIdentity.device_fingerprint toy_identity)
    LicenseFeatures.trial
    (sign_license toy_sha3 signed_license_id (ImmutableIdentity.user_id toy_identity))
    true 1 1.

Definition world_with_license (license : License.t) : World :=
  mkWorld {[license_entry (ImmutableIdentity.user_id toy_identity) := ELicense license]}
    (Some toy_identity) 0 0 0.

(** A key for the personal tier, one year, three activations, and its
    transport encoding with an extra [price] member of 10.00 in the JSON
    payload. *)
Definition toy_license_key : LicenseKey.t :=
  LicenseKey.mk "k3y0k3y1k3y2k3y3k3y4k3y5k3y6k3y7k3y8k3y9k3yak3ybk3yck3ydk3yek3yf"
    Personal (Some 365) 3 LicenseFeatures.personal.




(** The same key without the [price] member. *)
Definition toy_plain_key : string :=
  base64_encode (as_bytes (json_to_string (license_key_to_json toy_license_key))).

(* ================================================================== *)
(** * Properties *)

(** ** The identity manager *)

(** C10: with nothing in the identity cache (as after
    [IdentityManager::new()]), [destroy_identity] returns [Ok] and leaves the
    keyring (the public identity record and the private key) and the
    whole state untouched; the two deletions happen only on a cached
    identity. *)
Theorem destroy_identity_uncached_noop (w : World) :
  identity_cache w = None -> destroy_identity w = (Ok tt, w).
Proof.
  intros Hc. unfold destroy_identity, bind, gets. rewrite Hc. reflexivity.
Qed.

Lemma destroy_identity_uncached_noop_witness :
  identity_cache (mkWorld {[keyring_user := EIdentity toy_identity]} None 0 0 0) = None /\
  destroy_identity (mkWorld {[keyring_user := EIdentity toy_identity]} None 0 0 0)
  = (Ok tt, mkWorld {[keyring_user := EIdentity toy_identity]} None 0 0 0).
Proof.
  split; [reflexivity |].
  apply destroy_identity_uncached_noop. reflexivity.
Defined.

(** C4: [verify_signature] propagates the error of
    [Signature::from_bytes] with [?]: on a signature of the wrong length
    (here the empty one) it returns an error, not [Ok(false)], whatever the
    identity, the data and the curve arithmetic. *)
Theorem verify_signature_empty_signature_errors
    (public_key_decodes signature_encoding_ok : list byte -> bool)
    (ed25519_verify : list byte -> list byte -> list byte -> bool)
    (identity : ImmutableIdentity.t) (data : list byte) :
  verify_signature public_key_decodes signature_encoding_ok ed25519_verify
    identity data [] = Err SignatureError.
Proof.
  unfold verify_signature, public_key_from_bytes, signature_from_bytes.
  destruct (_ && _); reflexivity.
Qed.

(** ** The license manager *)

Lemma hex_decode_byte (b : byte) :
  Byte.of_N (hex_value (hex_digit (N.div (Byte.to_N b) 16)) * 16
             + hex_value (hex_digit (N.modulo (Byte.to_N b) 16))) = Some b.
Proof. destruct b; reflexivity. Qed.

Lemma hex_decode_encode (bs : list byte) : hex_decode (hex_encode bs) = bs.
Proof.
  induction bs as [| b bs IH]; [reflexivity |].
  simpl. rewrite hex_decode_byte, IH. reflexivity.
Qed.

Lemma hex_encode_inj (bs1 bs2 : list byte) : hex_encode bs1 = hex_encode bs2 -> bs1 = bs2.
Proof.
  intros H. rewrite <- (hex_decode_encode bs1), <- (hex_decode_encode bs2), H. reflexivity.
Qed.

Lemma as_bytes_inj (s1 s2 : string) : as_bytes s1 = as_bytes s2 -> s1 = s2.
Proof.
  unfold as_bytes. intros H.
  rewrite <- (String.string_of_list_byte_of_string s1), H.
  apply String.string_of_list_byte_of_string.
Qed.

Lemma eqb_true_string (s1 s2 : string) : String.eqb s1 s2 = true <-> s1 = s2.
Proof. apply String.eqb_eq. Qed.

Lemma string_length_append (s1 s2 : string) :
  String.length (s1 +:+ s2) = (String.length s1 + String.length s2)%nat.
Proof. induction s1 as [| c s1 IH]; simpl; [reflexivity | rewrite IH; reflexivity]. Qed.

(** The keyring entries the managers write never share a name. *)
Lemma trial_used_entry_ne_private (u v : string) :
  String.length u = String.length v -> trial_used_entry u <> private_key_entry v.
Proof.
  intros Hl Heq. apply (f_equal String.length) in Heq.
  unfold trial_used_entry, private_key_entry in Heq.
  rewrite !string_length_append in Heq. simpl in Heq. lia.
Qed.

Lemma trial_used_entry_ne_user (u : string) : trial_used_entry u <> keyring_user.
Proof. discriminate. Qed.

Lemma license_entry_ne_trial_used (u v : string) : license_entry u <> trial_used_entry v.
Proof. discriminate. Qed.

Lemma license_entry_ne_activations (u k : string) : license_entry u <> activations_entry k.
Proof. discriminate. Qed.

Lemma license_entry_ne_activation (u k : string) (n : Z) : license_entry u <> activation_entry k n.
Proof. discriminate. Qed.



(** [t + Duration::days(d)] does not panic when [t] and the result are
    both instants chrono can represent, and panics when [t] is one and the
    result is not. *)
Lemma chrono_add_days_in_range (t d : Z) :
  in_utc_range t -> in_utc_range (t + days d) -> chrono_add_days t d = Some (t + days d).
Proof.
  unfold in_utc_range. intros Ht Hr. unfold chrono_add_days, chrono_days, chrono_add.
  assert (Hd : - max_duration_secs <= days d <= max_duration_secs)
    by (unfold max_duration_secs, min_utc_secs, max_utc_secs in *; lia).
  rewrite (proj2 (Z.leb_le _ _) (proj1 Hd)), (proj2 (Z.leb_le _ _) (proj2 Hd)). cbn [andb].
  rewrite (proj2 (Z.leb_le _ _) (proj1 Hr)), (proj2 (Z.leb_le _ _) (proj2 Hr)). reflexivity.
Qed.


Lemma chrono_add_days_30 (t : Z) :
  in_utc_range (t + days 30) -> chrono_add_days t 30 = Some (t + days 30).
Proof.
  unfold in_utc_range. intros Hr. unfold chrono_add_days.
  change (chrono_days 30) with (Some (days 30)). unfold chrono_add. rewrite (proj2 (Z.leb_le _ _) (proj1 Hr)), (proj2 (Z.leb_le _ _) (proj2 Hr)).
  reflexivity.
Qed.

Section LicenseProofs.

Variable sha3_256 : list byte -> list byte.
Variable clock : nat -> Z.
Variable os_keypair : nat -> Keypair.
Variable system_info : nat -> SystemInfo.

Local Abbreviation validate := (validate_current_license sha3_256 clock os_keypair system_info).
Local Abbreviation current_identity := (get_current_identity sha3_256 clock os_keypair system_info).

(** What [validate_current_license] returns, once the current identity is
    known: the checks run in the source's order on the license stored
    under [license_<user_id>], reading the clock for the expiry check. *)
Lemma validate_current_license_result (w w1 : World) (identity : ImmutableIdentity.t) :
  current_identity w = (Ok identity, w1) ->
  fst (validate w) =
  Ok (match store w1 !! license_entry (ImmutableIdentity.user_id identity) with
      | Some (ELicense license) =>
          if String.eqb (License.user_id license) (ImmutableIdentity.user_id identity)
             && String.eqb (License.device_fingerprint license)
                  (ImmutableIdentity.device_fingerprint identity)
             && match License.expires_at license with
                | Some e => negb (e <? clock (clock_tick w1))
                | None => true
                end
             && verify_license_signature sha3_256 license
             && License.is_active license
          then (true, Some license) else (false, None)
      | _ => (false, None)
      end).
Proof.
  intros H. cbv [validate_current_license bind]. rewrite H.
  cbv [attempt get_stored_license get_password bind ret fail].
  destruct (store w1 !! _) as [[| license |] |]; try reflexivity.
  destruct (String.eqb (License.user_id license) _); [| reflexivity].
  destruct (String.eqb (License.device_fingerprint license) _); [| reflexivity].
  destruct (License.expires_at license) as [e |]; cbv [now]; simpl.
  - destruct (e <? clock (clock_tick w1)); simpl; [reflexivity |].
    destruct (verify_license_signature _ _); [| reflexivity].
    destruct (License.is_active license); reflexivity.
  - destruct (verify_license_signature _ _); [| reflexivity].
    destruct (License.is_active license); reflexivity.
Qed.


(** C1: once the current identity is obtained, [validate_current_license]
    never returns an error.  It returns [(true, Some license)] exactly for
    the license stored under [license_<user_id>] when all checks pass: its
    [user_id] and [device_fingerprint] are those of the current identity,
    its [expires_at], when present, is not before the clock reading [now],
    its signature recomputes, and [is_active] holds.  When no stored license
    passes them all (none stored, or one check fails) it returns
    [(false, None)]. *)
Theorem validate_current_license_fails_closed (w w1 : World) (identity : ImmutableIdentity.t) :
  current_identity w = (Ok identity, w1) ->
  let now := clock (clock_tick w1) in
  let passes (license : License.t) : Prop :=
    store w1 !! license_entry (ImmutableIdentity.user_id identity) = Some (ELicense license) /\
    License.user_id license = ImmutableIdentity.user_id identity /\
    License.device_fingerprint license = ImmutableIdentity.device_fingerprint identity /\
    (forall expires_at, License.expires_at license = Some expires_at -> ~ expires_at < now) /\
    License.signature license
      = sign_license sha3_256 (License.license_id license) (License.user_id license) /\
    License.is_active license = true in
  (forall license, passes license -> fst (validate w) = Ok (true, Some license)) /\
  ((~ exists license, passes license) -> fst (validate w) = Ok (false, None)).
Proof.
  intros H now passes. rewrite (validate_current_license_result _ _ _ H).
  split.
  - intros license (Hs & Hu & Hf & He & Hsig & Ha). rewrite Hs.
    assert (Hexp : match License.expires_at license with
                   | Some e => negb (e <? clock (clock_tick w1))
                   | None => true
                   end = true).
    { destruct (License.expires_at license) as [e |]; [| reflexivity].
      specialize (He e eq_refl). apply negb_true_iff, Z.ltb_ge. subst now. lia. }
    assert (Hv : verify_license_signature sha3_256 license = true).
    { unfold verify_license_signature. apply eqb_true_string. exact Hsig. }
    rewrite Hu, Hf, Hexp, Hv, Ha, !String.eqb_refl. reflexivity.
  - intros Hn. destruct (store w1 !! _) as [[| license |] |] eqn:Hs; try reflexivity.
    destruct (_ && _ && _ && _ && _) eqn:Hb; [| reflexivity].
    exfalso. apply Hn. exists license.
    apply andb_prop in Hb as [Hb Ha]. apply andb_prop in Hb as [Hb Hv].
    apply andb_prop in Hb as [Hb He]. apply andb_prop in Hb as [Hu Hf].
    apply eqb_true_string in Hu, Hf.
    unfold verify_license_signature in Hv. apply eqb_true_string in Hv.
    repeat split; try assumption.
    intros e He'. rewrite He' in He. apply negb_true_iff, Z.ltb_ge in He.
    subst now. lia.
Qed.

(** C8: the local signature is the SHA3-256 digest of
    [license_id ++ user_id ++ "UsenetSync-License-v1"], hex encoded.  With a
    collision-free digest, a license stored for the current identity whose
    [license_id] or [user_id] was changed after it was signed (the stored
    signature left in place) is rejected by [validate_current_license]. *)
Theorem sign_license_tamper_evident (w w1 : World) (identity : ImmutableIdentity.t)
    (license : License.t) (signed_license_id : string) :
  (forall a b, sha3_256 a = sha3_256 b -> a = b) ->
  current_identity w = (Ok identity, w1) ->
  store w1 !! license_entry (ImmutableIdentity.user_id identity) = Some (ELicense license) ->
  License.signature license
    = sign_license sha3_256 signed_license_id (ImmutableIdentity.user_id identity) ->
  License.license_id license <> signed_license_id
    \/ License.user_id license <> ImmutableIdentity.user_id identity ->
  (forall license_id user_id,
     sign_license sha3_256 license_id user_id
     = hex_encode (sha3_256 (as_bytes license_id ++ as_bytes user_id
                             ++ as_bytes "UsenetSync-License-v1"))) /\
  fst (validate w) = Ok (false, None).
Proof.
  intros Hinj H Hs Hsig Hmut. split; [reflexivity |].
  rewrite (validate_current_license_result _ _ _ H), Hs.
  destruct (String.eqb_spec (License.user_id license) (ImmutableIdentity.user_id identity))
    as [Hu | Hu]; [| reflexivity].
  destruct Hmut as [Hl | Hu']; [| contradiction].
  assert (Hv : verify_license_signature sha3_256 license = false).
  { unfold verify_license_signature. apply String.eqb_neq. rewrite Hsig, Hu.
    unfold sign_license. intros Heq. apply Hl.
    apply hex_encode_inj, Hinj in Heq. symmetry.
    apply as_bytes_inj, (app_inv_tail _ _ _ Heq). }
  rewrite Hv. rewrite !andb_false_r. reflexivity.
Qed.

(** Obtaining the current identity only adds keyring entries. *)
Lemma get_current_identity_extends (w w1 : World) (r : res ImmutableIdentity.t) (k : string) :
  current_identity w = (r, w1) -> is_Some (store w !! k) -> is_Some (store w1 !! k).
Proof.
  cbv [get_current_identity initialize_identity bind gets ret fail try_get_password
       write_cache set_cache set_password set_store generate_keypair
       generate_device_fingerprint now].
  destruct (identity_cache w) as [identity |].
  - intros [= _ <-]. tauto.
  - destruct (store w !! keyring_user) as [[] |]; simpl.
    + intros [= _ <-]. tauto.
    + intros [= _ <-]. tauto.
    + intros [= _ <-]. tauto.
    + destruct (_ <? 0); intros [= _ <-]; simpl; [tauto |].
      intros Hk. rewrite !lookup_insert.
      repeat case_decide; try done.
Qed.

(** C9: a successful [deactivate_license] stores again the license it
    loaded for the current identity, with [is_active] false and every other
    field unchanged, under [license_<user_id>] of that license (the entry it
    was loaded from when the record names the current identity); no other
    entry changes and no entry present before the call is deleted. *)
Theorem deactivate_license_soft (w w1 w' : World) (identity : ImmutableIdentity.t) :
  current_identity w = (Ok identity, w1) ->
  deactivate_license sha3_256 clock os_keypair system_info w = (Ok tt, w') ->
  exists license license',
    store w1 !! license_entry (ImmutableIdentity.user_id identity) = Some (ELicense license) /\
    store w' !! license_entry (License.user_id license) = Some (ELicense license') /\
    License.is_active license' = false /\
    License.license_id license' = License.license_id license /\
    License.user_id license' = License.user_id license /\
    License.license_type license' = License.license_type license /\
    License.activated_at license' = License.activated_at license /\
    License.expires_at license' = License.expires_at license /\
    License.device_fingerprint license' = License.device_fingerprint license /\
    License.features license' = License.features license /\
    License.signature license' = License.signature license /\
    License.activation_count license' = License.activation_count license /\
    License.max_activations license' = License.max_activations license /\
    (forall k, k <> license_entry (License.user_id license) -> store w' !! k = store w1 !! k) /\
    (forall k, is_Some (store w !! k) -> is_Some (store w' !! k)).
Proof.
  intros H Hd.
  assert (Hext := fun k => get_current_identity_extends w w1 _ k H).
  revert Hd. cbv [deactivate_license bind]. rewrite H.
  cbv [get_stored_license get_password store_license set_password set_store bind ret fail].
  destruct (store w1 !! _) as [[| license |] |] eqn:Hs; try discriminate.
  intros [= <-]. simpl.
  eexists license, _. rewrite lookup_insert_eq.
  repeat split; try reflexivity.
  - intros k Hk. rewrite lookup_insert_ne; [reflexivity | congruence].
  - intros k Hk. apply Hext in Hk. rewrite lookup_insert.
    case_decide; [done | exact Hk].
Qed.

(** A step that keeps the cached identity [identity] and deletes no
    keyring entry. *)
Definition keeps (identity : ImmutableIdentity.t) {A} (c : M A) : Prop :=
  forall w, identity_cache w = Some identity ->
  identity_cache (snd (c w)) = Some identity /\
  (forall k, is_Some (store w !! k) -> is_Some (store (snd (c w)) !! k)).

Lemma keeps_bind identity {A B} (c : M A) (k : A -> M B) :
  keeps identity c -> (forall a, keeps identity (k a)) -> keeps identity (bind c k).
Proof.
  intros Hc Hk w Hw. unfold bind.
  destruct (Hc w Hw) as [Hc1 Hc2]. destruct (c w) as [[a | e] w'] eqn:E; simpl in *.
  - destruct (Hk a w' Hc1) as [Hk1 Hk2]. split; [exact Hk1 |]. auto.
  - auto.
Qed.

Lemma keeps_ret identity {A} (a : A) : keeps identity (ret a).
Proof. intros w Hw. split; auto. Qed.

Lemma keeps_fail identity {A} (e : error) : keeps identity (@fail A e).
Proof. intros w Hw. split; auto. Qed.

Lemma keeps_gets identity {A} (f : World -> A) : keeps identity (gets f).
Proof. intros w Hw. split; auto. Qed.

Lemma keeps_now identity : keeps identity (now clock).
Proof. intros w Hw. split; auto. Qed.

Lemma keeps_generate_device_fingerprint identity :
  keeps identity (generate_device_fingerprint sha3_256 system_info).
Proof. intros w Hw. split; auto. Qed.

Lemma keeps_get_password identity name : keeps identity (get_password name).
Proof. intros w Hw. unfold get_password. destruct (_ !! _); split; auto. Qed.

Lemma keeps_set_password identity name v : keeps identity (set_password name v).
Proof.
  intros w Hw. split; [exact Hw |]. intros k Hk. simpl.
  rewrite lookup_insert. case_decide; [done | exact Hk].
Qed.

Lemma keeps_attempt identity {A} (c : M A) : keeps identity c -> keeps identity (attempt c).
Proof.
  intros Hc w Hw. unfold attempt. destruct (Hc w Hw) as [H1 H2].
  destruct (c w) as [r w'] eqn:E. simpl in *. auto.
Qed.

Lemma keeps_get_current_identity identity : keeps identity current_identity.
Proof. intros w Hw. cbv [get_current_identity bind gets]. rewrite Hw. split; auto. Qed.

Create HintDb keeps.
#[local] Hint Resolve keeps_ret keeps_fail keeps_gets keeps_now keeps_get_password
  keeps_set_password keeps_get_current_identity keeps_generate_device_fingerprint : keeps.

Ltac head_of t := lazymatch t with ?f _ => head_of f | _ => t end.

Ltac keeps_steps :=
  repeat (cbv zeta;
    match goal with
    | |- keeps _ _ => solve [auto with keeps]
    | |- keeps _ (bind _ _) => apply keeps_bind; [| intros ?]
    | |- keeps _ (attempt _) => apply keeps_attempt
    | |- keeps _ (match ?x with _ => _ end) => destruct x
    | |- keeps _ ?c => let h := head_of c in progress (unfold h)
    end); auto with keeps.

Lemma keeps_run_call identity (c : license_call) :
  forall w, identity_cache w = Some identity ->
  identity_cache (run_call sha3_256 clock os_keypair system_info c w) = Some identity /\
  (forall k, is_Some (store w !! k) ->
   is_Some (store (run_call sha3_256 clock os_keypair system_info c w) !! k)).
Proof.
  destruct c; unfold run_call.
  - change (keeps identity (activate_trial sha3_256 clock os_keypair system_info)).
    unfold activate_trial. keeps_steps.
  - change (keeps identity (activate_paid_license sha3_256 clock os_keypair
                              system_info license_key)).
    unfold activate_paid_license. keeps_steps.
  - change (keeps identity validate). unfold validate_current_license. keeps_steps.
  - change (keeps identity (deactivate_license sha3_256 clock os_keypair system_info)).
    unfold deactivate_license. keeps_steps.
Qed.

Lemma get_current_identity_caches (w w1 : World) (identity : ImmutableIdentity.t) :
  current_identity w = (Ok identity, w1) -> identity_cache w1 = Some identity.
Proof.
  cbv [get_current_identity initialize_identity bind gets ret fail try_get_password
       write_cache set_cache set_password set_store generate_keypair
       generate_device_fingerprint now].
  destruct (identity_cache w) as [i |] eqn:Hc.
  - intros [= <- <-]. exact Hc.
  - destruct (store w !! keyring_user) as [[] |]; simpl; try discriminate.
    + intros [= <- <-]. reflexivity.
    + destruct (_ <? 0); simpl; [discriminate |]. intros [= <- <-]. reflexivity.
Qed.

(** [verify_device] takes one new snapshot and compares its fingerprint
    with the identity's. *)
Lemma verify_device_run (identity : ImmutableIdentity.t) (w : World) :
  verify_device sha3_256 system_info identity w
  = (Ok (String.eqb (fingerprint_of sha3_256 (system_info (sys_tick w)))
                    (ImmutableIdentity.device_fingerprint identity)),
     mkWorld (store w) (identity_cache w) (clock_tick w) (rng_tick w) (S (sys_tick w))).
Proof. reflexivity. Qed.

Lemma activate_trial_success (w w1 : World) (license : License.t) :
  activate_trial sha3_256 clock os_keypair system_info w = (Ok license, w1) ->
  exists identity,
    identity_cache w1 = Some identity /\
    ImmutableIdentity.user_id identity = License.user_id license /\
    store w1 !! trial_used_entry (License.user_id license) = Some (EText "true").
Proof.
  unfold activate_trial, bind at 1.
  destruct (current_identity w) as [[identity | e] wa] eqn:Hg; [| discriminate].
  apply get_current_identity_caches in Hg.
  cbv [has_used_trial try_get_password gets ret fail bind].
  destruct (store wa !! _); [discriminate |].
  rewrite verify_device_run. destruct (String.eqb _ _); cbn [negb]; [| discriminate].
  cbv [generate_license_id now or_panic store_license mark_trial_used set_password set_store
       ret bind fail].
  destruct (chrono_add_days _ 30); [| discriminate].
  simpl. intros [= <- <-]. exists identity. simpl.
  split; [exact Hg |]. split; [reflexivity |]. apply lookup_insert_eq.
Qed.

(** C2: after a successful [activate_trial] the trial-used marker of the
    license's [user_id] is in the keyring, and whatever license calls
    follow ([activate_trial], [activate_paid_license],
    [validate_current_license], [deactivate_license], in any number and
    order), a later [activate_trial] fails with [TrialAlreadyUsed] and
    changes nothing: no license is created or stored. *)
Theorem activate_trial_once (w w1 : World) (license : License.t) :
  activate_trial sha3_256 clock os_keypair system_info w = (Ok license, w1) ->
  store w1 !! trial_used_entry (License.user_id license) = Some (EText "true") /\
  forall calls : list license_call,
    let w2 := run_calls sha3_256 clock os_keypair system_info calls w1 in
    activate_trial sha3_256 clock os_keypair system_info w2 = (Err TrialAlreadyUsed, w2).
Proof.
  intros H. destruct (activate_trial_success _ _ _ H) as (identity & Hc & Hu & Hm).
  split; [exact Hm |]. intros calls w2. subst w2.
  assert (Hinv : forall (cs : list license_call) (w' : World),
            identity_cache w' = Some identity ->
            is_Some (store w' !! trial_used_entry (License.user_id license)) ->
            let w'' := run_calls sha3_256 clock os_keypair system_info cs w' in
            identity_cache w'' = Some identity /\
            is_Some (store w'' !! trial_used_entry (License.user_id license))).
  { induction cs as [| c cs IH]; intros w' Hc' Hm'; simpl; [auto |].
    destruct (keeps_run_call identity c w' Hc') as [Hc'' Hk]. apply IH; auto. }
  destruct (Hinv calls w1 Hc (ltac:(eexists; exact Hm))) as [Hc2 [v Hv]].
  cbv [activate_trial bind get_current_identity gets]. rewrite Hc2.
  cbv [has_used_trial try_get_password gets ret fail bind].
  rewrite Hu, Hv. reflexivity.
Qed.

Lemma initialize_identity_new (w : World) :
  store w !! keyring_user = None -> 0 <= clock (clock_tick w) ->
  let keypair := os_keypair (rng_tick w) in
  let fingerprint := fingerprint_of sha3_256 (system_info (sys_tick w)) in
  let identity := ImmutableIdentity.mk (derive_user_id sha3_256 (kp_public keypair) fingerprint)
                    (kp_public keypair) (clock (clock_tick w)) fingerprint 1 in
  initialize_identity sha3_256 clock os_keypair system_info w
  = (Ok (identity, true),
     mkWorld (<[keyring_user := EIdentity identity]>
                (<[private_key_entry (ImmutableIdentity.user_id identity)
                     := EText (base64_encode (kp_secret keypair))]> (store w)))
             (Some identity) (S (clock_tick w)) (S (rng_tick w)) (S (sys_tick w))).
Proof.
  destruct w as [s c n r k]. simpl. intros Hs Hclk.
  cbv [initialize_identity bind try_get_password gets ret fail generate_keypair
       generate_device_fingerprint now set_password set_store write_cache set_cache
       store identity_cache clock_tick rng_tick sys_tick].
  rewrite Hs.
  destruct (clock n <? 0) eqn:E; [apply Z.ltb_lt in E; lia | reflexivity].
Qed.

Lemma activate_trial_new_license (w w1 : World) (identity : ImmutableIdentity.t) :
  current_identity w = (Ok identity, w1) ->
  store w1 !! trial_used_entry (ImmutableIdentity.user_id identity) = None ->
  fingerprint_of sha3_256 (system_info (sys_tick w1))
    = ImmutableIdentity.device_fingerprint identity ->
  in_utc_range (clock (S (S (clock_tick w1))) + days 30) ->
  let user_id := ImmutableIdentity.user_id identity in
  exists license,
    activate_trial sha3_256 clock os_keypair system_info w
    = (Ok license,
       mkWorld (<[trial_used_entry user_id := EText "true"]>
                  (<[license_entry user_id := ELicense license]> (store w1)))
               (identity_cache w1) (S (S (S (clock_tick w1)))) (rng_tick w1)
               (S (sys_tick w1))) /\
    License.user_id license = user_id /\
    License.license_type license = Trial /\
    License.activated_at license = clock (S (clock_tick w1)) /\
    License.expires_at license = Some (clock (S (S (clock_tick w1))) + days 30) /\
    License.device_fingerprint license = ImmutableIdentity.device_fingerprint identity /\
    License.features license = LicenseFeatures.trial /\
    License.signature license = sign_license sha3_256 (License.license_id license) user_id /\
    License.is_active license = true.
Proof.
  intros Hid Hmarker Hdev Hrange user_id.
  unfold activate_trial. unfold bind at 1. rewrite Hid.
  destruct w1 as [s c n r k]. cbn [store sys_tick clock_tick] in Hmarker, Hdev, Hrange.
  cbv [bind has_used_trial try_get_password gets ret fail].
  cbn [store]. rewrite Hmarker. rewrite verify_device_run. cbn [sys_tick].
  rewrite Hdev, String.eqb_refl. cbn [negb].
  cbv [bind generate_license_id now or_panic store_license mark_trial_used set_password
       set_store ret store identity_cache clock_tick rng_tick sys_tick].
  rewrite (chrono_add_days_30 _ Hrange).
  eexists. split; [reflexivity |].
  repeat split; reflexivity.
Qed.

(** [activate_trial] for an identity without trial-used marker, when the
    snapshot [verify_device] takes does not give the identity's
    fingerprint: [DeviceVerificationFailed], with nothing written. *)
Lemma activate_trial_device_mismatch (w w1 : World) (identity : ImmutableIdentity.t) :
  current_identity w = (Ok identity, w1) ->
  store w1 !! trial_used_entry (ImmutableIdentity.user_id identity) = None ->
  fingerprint_of sha3_256 (system_info (sys_tick w1))
    <> ImmutableIdentity.device_fingerprint identity ->
  activate_trial sha3_256 clock os_keypair system_info w
  = (Err DeviceVerificationFailed,
     mkWorld (store w1) (identity_cache w1) (clock_tick w1) (rng_tick w1) (S (sys_tick w1))).
Proof.
  intros Hid Hmarker Hdev.
  unfold activate_trial. unfold bind at 1. rewrite Hid.
  cbv [bind has_used_trial try_get_password gets ret fail].
  rewrite Hmarker. rewrite verify_device_run.
  apply String.eqb_neq in Hdev. rewrite Hdev. reflexivity.
Qed.

Lemma get_current_identity_new (w : World) :
  identity_cache w = None ->
  store w !! keyring_user = None -> 0 <= clock (clock_tick w) ->
  let keypair := os_keypair (rng_tick w) in
  let fingerprint := fingerprint_of sha3_256 (system_info (sys_tick w)) in
  let identity := ImmutableIdentity.mk (derive_user_id sha3_256 (kp_public keypair) fingerprint)
                    (kp_public keypair) (clock (clock_tick w)) fingerprint 1 in
  current_identity w
  = (Ok identity,
     mkWorld (<[keyring_user := EIdentity identity]>
                (<[private_key_entry (ImmutableIdentity.user_id identity)
                     := EText (base64_encode (kp_secret keypair))]> (store w)))
             (Some identity) (S (clock_tick w)) (S (rng_tick w)) (S (sys_tick w))).
Proof.
  intros Hc Hs Hclk. unfold get_current_identity. cbv [bind gets ret].
  rewrite Hc, (initialize_identity_new w Hs Hclk). reflexivity.
Qed.

(** C7: from a keyring with no entries and no cached identity (and a clock
    not below the epoch), [activate_trial] first creates the identity, whose
    [device_fingerprint] comes from one [sysinfo] snapshot, then
    [verify_device] hashes a second, new snapshot.  When the two
    fingerprints differ (another CPU frequency, or the network interfaces
    iterated in another order), the call fails with
    [DeviceVerificationFailed] and no license is stored.  When they agree
    (and the expiry is an instant chrono can represent), it returns a
    [Trial] license with [is_active = true] and [max_storage_gb = Some 10];
    [activated_at] is the clock reading right after [generate_license_id],
    [expires_at] is 30 days after the next, separate reading, and the license
    check that follows returns [(true, Some license)] as long as its own
    clock reading is not past [expires_at]. *)
Theorem activate_trial_fresh_device_check (w : World) :
  store w = ∅ -> identity_cache w = None -> 0 <= clock (clock_tick w) ->
  let created := fingerprint_of sha3_256 (system_info (sys_tick w)) in
  let verified := fingerprint_of sha3_256 (system_info (S (sys_tick w))) in
  (verified <> created ->
   fst (activate_trial sha3_256 clock os_keypair system_info w) = Err DeviceVerificationFailed /\
   forall k license,
     store (snd (activate_trial sha3_256 clock os_keypair system_info w)) !! k
       <> Some (ELicense license)) /\
  (verified = created ->
   in_utc_range (clock (S (S (S (clock_tick w)))) + days 30) ->
   clock (S (S (S (S (clock_tick w))))) <= clock (S (S (S (clock_tick w)))) + days 30 ->
   exists license w1,
     activate_trial sha3_256 clock os_keypair system_info w = (Ok license, w1) /\
     License.license_type license = Trial /\
     License.activated_at license = clock (S (S (clock_tick w))) /\
     License.expires_at license = Some (clock (S (S (S (clock_tick w)))) + days 30) /\
     License.is_active license = true /\
     LicenseFeatures.max_storage_gb (License.features license) = Some 10 /\
     fst (validate w1) = Ok (true, Some license)).
Proof.
  intros Hs Hc Hclk created verified.
  assert (Hu : store w !! keyring_user = None) by (rewrite Hs; apply lookup_empty).
  pose proof (get_current_identity_new w Hc Hu Hclk) as Hid. cbv zeta in Hid.
  set (identity := ImmutableIdentity.mk _ _ _ _ _) in Hid.
  assert (Hmarker : store (mkWorld (<[keyring_user := EIdentity identity]>
             (<[private_key_entry (ImmutableIdentity.user_id identity)
                  := EText (base64_encode (kp_secret (os_keypair (rng_tick w))))]> (store w)))
             (Some identity) (S (clock_tick w)) (S (rng_tick w)) (S (sys_tick w)))
           !! trial_used_entry (ImmutableIdentity.user_id identity) = None).
  { simpl. rewrite lookup_insert_ne by (apply not_eq_sym, trial_used_entry_ne_user).
    rewrite lookup_insert_ne by (apply not_eq_sym, trial_used_entry_ne_private; reflexivity).
    rewrite Hs. apply lookup_empty. }
  split.
  - intros Hne.
    rewrite (activate_trial_device_mismatch _ _ identity Hid Hmarker) by exact Hne.
    split; [reflexivity |]. intros k license. simpl.
    rewrite !lookup_insert. rewrite Hs, lookup_empty.
    repeat case_decide; discriminate.
  - intros Heq Hrange Hexp.
    edestruct (activate_trial_new_license w _ identity Hid Hmarker)
      as (license & Hrun & Huser & Htype & Hact & Hexpires & Hfp & Hfeat & Hsig & Hactive);
      [exact Heq | exact Hrange |].
    cbv zeta in Hrun. simpl in *.
    exists license. eexists. split; [exact Hrun |].
    split; [exact Htype |]. split; [exact Hact |]. split; [exact Hexpires |].
    split; [exact Hactive |]. split; [rewrite Hfeat; reflexivity |].
    erewrite (validate_current_license_result _ _ identity); [| reflexivity]. simpl.
    rewrite lookup_insert_ne by (apply not_eq_sym, license_entry_ne_trial_used).
    rewrite lookup_insert_eq.
    rewrite Huser, Hfp, Hexpires, Hactive, String.eqb_refl, String.eqb_refl. simpl.
    unfold verify_license_signature. rewrite Hsig, Huser, String.eqb_refl. simpl.
    destruct (_ <? _) eqn:E; [apply Z.ltb_lt in E; lia | reflexivity].
Qed.

Lemma activate_trial_marked (w w1 : World) (identity : ImmutableIdentity.t) :
  current_identity w = (Ok identity, w1) ->
  is_Some (store w1 !! trial_used_entry (ImmutableIdentity.user_id identity)) ->
  activate_trial sha3_256 clock os_keypair system_info w = (Err TrialAlreadyUsed, w1).
Proof.
  intros Hid [v Hv]. unfold activate_trial. unfold bind at 1. rewrite Hid.
  cbv [bind has_used_trial try_get_password gets ret fail]. rewrite Hv. reflexivity.
Qed.

Lemma destroy_identity_cached (w : World) (identity : ImmutableIdentity.t) :
  identity_cache w = Some identity ->
  destroy_identity w
  = (Ok tt, mkWorld (delete keyring_user
                       (delete (private_key_entry (ImmutableIdentity.user_id identity)) (store w)))
                    None (clock_tick w) (rng_tick w) (sys_tick w)).
Proof.
  intros Hc. destruct w as [s c n r k]. simpl in Hc. subst c.
  cbv [destroy_identity bind gets delete_password write_cache set_store set_cache
       store identity_cache clock_tick rng_tick sys_tick].
  reflexivity.
Qed.

(** C5: [destroy_identity] deletes exactly two keyring entries, the private
    key and the identity record; the trial-used marker of the destroyed
    identity stays where it was.  The identity created afterwards has the
    [user_id] derived from a freshly generated key pair (and the fingerprint
    of a new snapshot).  [activate_trial] on it fails with
    [TrialAlreadyUsed] exactly when a marker exists under that new
    [user_id].  When none does, it fails with [DeviceVerificationFailed] if
    the snapshot [verify_device] takes gives another fingerprint than the
    one recorded at creation, and otherwise (the expiry being an instant
    chrono can represent) it succeeds and grants a new trial. *)
Theorem destroy_identity_then_activate_trial (w : World) (identity : ImmutableIdentity.t) :
  identity_cache w = Some identity -> 0 <= clock (clock_tick w) ->
  let w1 := snd (destroy_identity w) in
  let fingerprint' := fingerprint_of sha3_256 (system_info (sys_tick w)) in
  let user_id' := derive_user_id sha3_256 (kp_public (os_keypair (rng_tick w))) fingerprint' in
  store w1 = delete keyring_user
               (delete (private_key_entry (ImmutableIdentity.user_id identity)) (store w)) /\
  store w1 !! trial_used_entry (ImmutableIdentity.user_id identity)
    = store w !! trial_used_entry (ImmutableIdentity.user_id identity) /\
  (is_Some (store w1 !! trial_used_entry user_id') ->
   fst (activate_trial sha3_256 clock os_keypair system_info w1) = Err TrialAlreadyUsed) /\
  (store w1 !! trial_used_entry user_id' = None ->
   fingerprint_of sha3_256 (system_info (S (sys_tick w))) <> fingerprint' ->
   fst (activate_trial sha3_256 clock os_keypair system_info w1) = Err DeviceVerificationFailed) /\
  (store w1 !! trial_used_entry user_id' = None ->
   fingerprint_of sha3_256 (system_info (S (sys_tick w))) = fingerprint' ->
   in_utc_range (clock (S (S (S (clock_tick w)))) + days 30) ->
   exists license w2,
     activate_trial sha3_256 clock os_keypair system_info w1 = (Ok license, w2) /\
     License.user_id license = user_id' /\
     License.license_type license = Trial /\
     store w2 !! trial_used_entry user_id' = Some (EText "true")).
Proof.
  intros Hc Hclk w1 fingerprint' user_id'.
  assert (Hw1 : w1 = mkWorld (delete keyring_user
                  (delete (private_key_entry (ImmutableIdentity.user_id identity)) (store w)))
                  None (clock_tick w) (rng_tick w) (sys_tick w))
    by (unfold w1; rewrite (destroy_identity_cached w identity Hc); reflexivity).
  clearbody w1. subst w1.
  assert (Hu : store (mkWorld (delete keyring_user
                  (delete (private_key_entry (ImmutableIdentity.user_id identity)) (store w)))
                  None (clock_tick w) (rng_tick w) (sys_tick w)) !! keyring_user = None)
    by apply lookup_delete_eq.
  pose proof (get_current_identity_new _ (eq_refl : identity_cache (mkWorld _ None _ _ _) = None)
                Hu Hclk) as Hid.
  cbv zeta in Hid. simpl in Hid.
  set (identity' := ImmutableIdentity.mk _ _ _ _ _) in Hid.
  assert (Hmarker : forall (s : gmap string entry) (v : entry),
    (<[keyring_user := EIdentity identity']>
       (<[private_key_entry user_id' := v]> s)) !! trial_used_entry user_id'
    = s !! trial_used_entry user_id').
  { intros s' v. rewrite lookup_insert_ne by (apply not_eq_sym, trial_used_entry_ne_user).
    rewrite lookup_insert_ne by (apply not_eq_sym, trial_used_entry_ne_private; reflexivity).
    reflexivity. }
  split; [reflexivity |]. split; [| split; [| split]].
  - simpl. rewrite lookup_delete_ne by (apply not_eq_sym, trial_used_entry_ne_user).
    rewrite lookup_delete_ne by (apply not_eq_sym, trial_used_entry_ne_private; reflexivity).
    reflexivity.
  - intros Hm. erewrite activate_trial_marked; [reflexivity | exact Hid |].
    simpl. unfold user_id' in Hmarker. rewrite Hmarker. exact Hm.
  - intros Hm Hne.
    erewrite (activate_trial_device_mismatch _ _ identity' Hid); [reflexivity | |].
    + simpl. unfold user_id' in Hmarker. rewrite Hmarker. exact Hm.
    + exact Hne.
  - intros Hm Heq Hrange.
    edestruct (activate_trial_new_license _ _ identity' Hid)
      as (license & Hrun & Huser & Htype & _).
    { simpl. unfold user_id' in Hmarker. rewrite Hmarker. exact Hm. }
    { exact Heq. }
    { exact Hrange. }
    cbv zeta in Hrun.
    exists license. eexists. split; [exact Hrun |].
    split; [exact Huser |]. split; [exact Htype |].
    simpl. apply lookup_insert_eq.
Qed.


(** A first activation of a decodable key on the registered device: the
    license is stored, unless the expiry [t + Duration::days(d)] leaves
    chrono's range, where the call panics before writing anything. *)
Lemma activate_paid_license_first_activation (license_key : string) (w w1 : World)
    (identity : ImmutableIdentity.t) (lk : LicenseKey.t) :
  current_identity w = (Ok identity, w1) ->
  decode_license_key license_key = Ok lk ->
  fingerprint_of sha3_256 (system_info (sys_tick w1))
    = ImmutableIdentity.device_fingerprint identity ->
  store w1 !! activations_entry (LicenseKey.key lk) = None ->
  0 < LicenseKey.max_activations lk ->
  ((forall d, LicenseKey.duration_days lk = Some d ->
      chrono_add_days (clock (S (clock_tick w1))) d = Some (clock (S (clock_tick w1)) + days d)) ->
   exists license w2,
     activate_paid_license sha3_256 clock os_keypair system_info license_key w
       = (Ok license, w2) /\
     License.user_id license = ImmutableIdentity.user_id identity /\
     License.license_type license = LicenseKey.license_type lk /\
     License.is_active license = true /\
     store w2 !! license_entry (ImmutableIdentity.user_id identity) = Some (ELicense license)) /\
  (forall d, LicenseKey.duration_days lk = Some d ->
     chrono_add_days (clock (S (clock_tick w1))) d = None ->
     exists w2,
       activate_paid_license sha3_256 clock os_keypair system_info license_key w
         = (Err Panicked, w2) /\ store w2 = store w1).
Proof.
  intros Hid Hdec Hdev Hcount Hmax.
  split; [intros Hrange | intros d Hd Hpanic];
  unfold activate_paid_license; unfold bind at 1;
  rewrite Hid, Hdec; unfold bind at 1; rewrite verify_device_run, Hdev, String.eqb_refl;
  cbn [negb]; destruct w1 as [s c n r k]; cbn [store clock_tick] in Hcount |- *;
  cbv [bind get_activation_count try_get_password gets ret fail];
  cbv [store]; rewrite Hcount; cbv beta iota;
  (destruct (LicenseKey.max_activations lk <=? 0) eqn:E; [apply Z.leb_le in E; lia |]);
  cbv [generate_license_id now or_panic store_license record_activation get_activation_count
       set_password set_store try_get_password gets bind ret fail store identity_cache
       clock_tick rng_tick sys_tick].
  - cbn [clock_tick] in Hrange.
    destruct (LicenseKey.duration_days lk) as [d |].
    + rewrite (Hrange d eq_refl). simpl.
      rewrite lookup_insert_ne, Hcount by apply license_entry_ne_activations; simpl.
      do 2 eexists. split; [reflexivity |]. simpl.
      split; [reflexivity | split; [reflexivity | split; [reflexivity |]]].
      rewrite !lookup_insert_ne by (apply not_eq_sym; first
        [ apply license_entry_ne_activations | apply license_entry_ne_activation ]).
      apply lookup_insert_eq.
    + simpl.
      rewrite lookup_insert_ne, Hcount by apply license_entry_ne_activations; simpl.
      do 2 eexists. split; [reflexivity |]. simpl.
      split; [reflexivity | split; [reflexivity | split; [reflexivity |]]].
      rewrite !lookup_insert_ne by (apply not_eq_sym; first
        [ apply license_entry_ne_activations | apply license_entry_ne_activation ]).
      apply lookup_insert_eq.
  - cbn [clock_tick] in Hpanic. rewrite Hd, Hpanic. eexists. split; reflexivity.
Qed.


End LicenseProofs.

(* ================================================================== *)
(** * Further properties of the managers *)

Lemma b64_char_value (k : N) : (k < 64)%N -> b64_value (b64_char k) = Some k.
Proof.
  intros Hk.
  assert (H : forallb (fun n => match b64_value (b64_char (N.of_nat n)) with
                                | Some v => N.eqb v (N.of_nat n)
                                | None => false
                                end) (seq 0 64) = true) by reflexivity.
  rewrite forallb_forall in H.
  assert (Hin : In (N.to_nat k) (seq 0 64)) by (apply in_seq; lia).
  specialize (H (N.to_nat k) Hin). rewrite N2Nat.id in H.
  destruct (b64_value (b64_char k)); [| discriminate].
  apply N.eqb_eq in H. subst. reflexivity.
Qed.

Ltac split_bits :=
  repeat match goal with
         | |- context [match ?b with true => _ | false => _ end] => is_var b; destruct b
         end.

Lemma decode_group (c1 c2 c3 c4 : ascii) rest :
  c3 <> "="%char -> c4 <> "="%char ->
  base64_decode_chars (c1 :: c2 :: c3 :: c4 :: rest) =
      match b64_value c1, b64_value c2, b64_value c3, b64_value c4 with
      | Some v1, Some v2, Some v3, Some v4 =>
          let n := (v1 * 262144 + v2 * 4096 + v3 * 64 + v4)%N in
          match base64_decode_chars rest with
          | Some bs =>
              Some (byte_of_N (n / 65536) :: byte_of_N (n / 256 mod 256)
                      :: byte_of_N (n mod 256) :: bs)
          | None => None
          end
      | _, _, _, _ => None
      end.
Proof.
  intros H3 H4. destruct c3, c4. cbn [base64_decode_chars].
  split_bits; try reflexivity; try (exfalso; apply H3; reflexivity);
    try (exfalso; apply H4; reflexivity); destruct rest; try reflexivity.
Qed.

Lemma decode_tail2 (c1 c2 c3 : ascii) :
  c3 <> "="%char ->
  base64_decode_chars [c1; c2; c3; "="%char] =
      match b64_value c1, b64_value c2, b64_value c3 with
      | Some v1, Some v2, Some v3 =>
          let n := (v1 * 4096 + v2 * 64 + v3)%N in
          if (n mod 4 =? 0)%N then Some [byte_of_N (n / 1024); byte_of_N (n / 4 mod 256)]
          else None
      | _, _, _ => None
      end.
Proof.
  intros H3. destruct c3. cbn [base64_decode_chars].
  split_bits; try reflexivity; exfalso; apply H3; reflexivity.
Qed.

Lemma b64_char_ok (k : N) : (k < 64)%N ->
  b64_value (b64_char k) = Some k /\ b64_char k <> "="%char.
Proof.
  intros Hk. pose proof (b64_char_value k Hk) as H. split; [exact H |].
  intros E. rewrite E in H. discriminate.
Qed.

Lemma byte_of_N_to_N (b : byte) : byte_of_N (Byte.to_N b) = b.
Proof. unfold byte_of_N. rewrite Byte.of_to_N. reflexivity. Qed.

Ltac narith := zify; Z.to_euclidean_division_equations; lia.

Lemma byte_of_N_eq (b : byte) (n : N) : n = Byte.to_N b -> byte_of_N n = b.
Proof. intros ->. apply byte_of_N_to_N. Qed.

Lemma decode_encode_group (b1 b2 b3 : byte) (rest : list byte) :
  base64_decode_chars (base64_encode_bytes (b1 :: b2 :: b3 :: rest))
  = option_map (fun bs => b1 :: b2 :: b3 :: bs) (base64_decode_chars (base64_encode_bytes rest)).
Proof.
  pose proof (Byte.to_N_bounded b1). pose proof (Byte.to_N_bounded b2).
  pose proof (Byte.to_N_bounded b3).
  cbn [base64_encode_bytes].
  set (n := (Byte.to_N b1 * 65536 + Byte.to_N b2 * 256 + Byte.to_N b3)%N).
  assert (Hn : (n < 16777216)%N) by (unfold n; narith).
  destruct (b64_char_ok (n / 262144)) as [E1 _]; [narith |].
  destruct (b64_char_ok (n / 4096 mod 64)) as [E2 _]; [narith |].
  destruct (b64_char_ok (n / 64 mod 64)) as [E3 P3]; [narith |].
  destruct (b64_char_ok (n mod 64)) as [E4 P4]; [narith |].
  rewrite (decode_group _ _ _ _ _ P3 P4), E1, E2, E3, E4. cbv zeta.
  destruct (base64_decode_chars (base64_encode_bytes rest)); [| reflexivity]. simpl.
  repeat f_equal; apply byte_of_N_eq; unfold n in *; narith.
Qed.

Lemma base64_roundtrip (bs : list byte) : base64_decode (base64_encode bs) = Some bs.
Proof.
  unfold base64_decode, base64_encode. rewrite String.list_ascii_of_string_of_list_ascii.
  induction bs as [bs IH] using (induction_ltof1 _ (@length byte)); unfold ltof in IH.
  destruct bs as [| b1 [| b2 [| b3 rest]]].
  - reflexivity.
  - pose proof (Byte.to_N_bounded b1). cbn [base64_encode_bytes].
    set (n := (Byte.to_N b1 * 65536)%N).
    destruct (b64_char_ok (n / 262144)) as [E1 _]; [unfold n; narith |].
    destruct (b64_char_ok (n / 4096 mod 64)) as [E2 _]; [unfold n; narith |].
    cbn [base64_decode_chars]. rewrite E1, E2. cbv zeta.
    replace ((n / 262144 * 64 + n / 4096 mod 64) mod 16 =? 0)%N with true
      by (symmetry; apply N.eqb_eq; unfold n; narith).
    do 2 f_equal. apply byte_of_N_eq. unfold n; narith.
  - pose proof (Byte.to_N_bounded b1). pose proof (Byte.to_N_bounded b2).
    cbn [base64_encode_bytes].
    set (n := (Byte.to_N b1 * 65536 + Byte.to_N b2 * 256)%N).
    destruct (b64_char_ok (n / 262144)) as [E1 _]; [unfold n; narith |].
    destruct (b64_char_ok (n / 4096 mod 64)) as [E2 _]; [unfold n; narith |].
    destruct (b64_char_ok (n / 64 mod 64)) as [E3 P3]; [unfold n; narith |].
    rewrite (decode_tail2 _ _ _ P3), E1, E2, E3. cbv zeta.
    replace ((n / 262144 * 4096 + n / 4096 mod 64 * 64 + n / 64 mod 64) mod 4 =? 0)%N
      with true by (symmetry; apply N.eqb_eq; unfold n; narith).
    repeat f_equal; apply byte_of_N_eq; unfold n; narith.
  - rewrite decode_encode_group, IH; [reflexivity | simpl; lia].
Qed.

Lemma list_ascii_app (s1 s2 : string) :
  String.list_ascii_of_string (s1 +:+ s2)
  = String.list_ascii_of_string s1 ++ String.list_ascii_of_string s2.
Proof. induction s1 as [| c s1 IH]; simpl; [reflexivity | rewrite IH; reflexivity]. Qed.

Lemma map_ascii_of_as_bytes (s : string) :
  map ascii_of_byte (as_bytes s) = String.list_ascii_of_string s.
Proof.
  unfold as_bytes, String.list_byte_of_string. rewrite map_map.
  erewrite map_ext, map_id; [reflexivity | intro; apply Ascii.ascii_of_byte_of_ascii].
Qed.

Lemma parse_string_body_plain (c : ascii) (r acc : list ascii) :
  c <> "034"%char -> c <> "\"%char ->
  parse_string_body (c :: r) acc = parse_string_body r (c :: acc).
Proof.
  intros Hq Hb. destruct c. cbn [parse_string_body].
  split_bits; try reflexivity; try (exfalso; apply Hq; reflexivity);
    exfalso; apply Hb; reflexivity.
Qed.

Lemma parse_string_body_escape (cs rest acc : list ascii) :
  parse_string_body (escape_chars cs ++ "034"%char :: rest) acc
  = Some (String.string_of_list_ascii (rev acc ++ cs), rest).
Proof.
  revert acc. induction cs as [| c cs IH]; intros acc.
  - simpl. rewrite app_nil_r. reflexivity.
  - cbn [escape_chars].
    destruct (Ascii.eqb_spec c "034"%char) as [-> |]; cbn [orb app].
    + cbn [parse_string_body]. rewrite IH. simpl. rewrite <- app_assoc. reflexivity.
    + destruct (Ascii.eqb_spec c "\"%char) as [-> |]; cbn [orb app].
      * cbn [parse_string_body]. rewrite IH. simpl. rewrite <- app_assoc. reflexivity.
      * rewrite parse_string_body_plain by assumption.
        rewrite IH. simpl. rewrite <- app_assoc. reflexivity.
Qed.

Lemma json_string_literal_chars (s : string) :
  String.list_ascii_of_string (json_string_literal s)
  = "034"%char :: escape_chars (String.list_ascii_of_string s) ++ ["034"%char].
Proof.
  unfold json_string_literal. simpl. rewrite list_ascii_app.
  rewrite String.list_ascii_of_string_of_list_ascii. reflexivity.
Qed.

Lemma parse_string_literal (s : string) (rest : list ascii) :
  parse_string_body (escape_chars (String.list_ascii_of_string s) ++ "034"%char :: rest) []
  = Some (s, rest).
Proof.
  rewrite parse_string_body_escape. simpl.
  rewrite String.string_of_list_ascii_of_string. reflexivity.
Qed.

Lemma string_app_assoc' (a b c : string) : (a +:+ b) +:+ c = a +:+ (b +:+ c).
Proof. induction a as [| x a IH]; [reflexivity | exact (f_equal (String.String x) IH)]. Qed.

Lemma string_length_chars (s : string) :
  String.length s = length (String.list_ascii_of_string s).
Proof. induction s as [| c s IH]; simpl; [reflexivity | rewrite IH; reflexivity]. Qed.

Lemma nat_to_string_aux_fuel (f1 f2 n : nat) (acc : string) :
  (n < f1)%nat -> (n < f2)%nat -> nat_to_string_aux f1 n acc = nat_to_string_aux f2 n acc.
Proof.
  revert f2 n acc. induction f1 as [| f1 IH]; intros f2 n acc H1 H2; [lia |].
  destruct f2 as [| f2]; [lia |]. cbn [nat_to_string_aux].
  destruct (Nat.ltb n 10) eqn:E; [reflexivity |].
  apply Nat.ltb_ge in E. assert (Nat.div n 10 < n)%nat by (apply Nat.div_lt; lia).
  apply IH; lia.
Qed.

Lemma nat_to_string_aux_acc (f n : nat) (acc : string) :
  (n < f)%nat -> nat_to_string_aux f n acc = nat_to_string_aux f n String.EmptyString +:+ acc.
Proof.
  revert n acc. induction f as [| f IH]; intros n acc H; [lia |]. cbn [nat_to_string_aux].
  destruct (Nat.ltb n 10) eqn:E; [reflexivity |].
  apply Nat.ltb_ge in E. assert (Nat.div n 10 < n)%nat by (apply Nat.div_lt; lia).
  rewrite (IH _ (String.String _ acc)), (IH _ (String.String _ String.EmptyString)) by lia.
  rewrite string_app_assoc'. reflexivity.
Qed.

Lemma nat_to_string_small (n : nat) :
  (n < 10)%nat -> nat_to_string n = String.String (digit_char n) String.EmptyString.
Proof.
  intros H. unfold nat_to_string. cbn [nat_to_string_aux].
  apply Nat.ltb_lt in H as H'. rewrite H', Nat.mod_small by lia. reflexivity.
Qed.

Lemma nat_to_string_step (n : nat) :
  (10 <= n)%nat ->
  nat_to_string n
  = nat_to_string (Nat.div n 10) +:+ String.String (digit_char (Nat.modulo n 10)) String.EmptyString.
Proof.
  intros H. unfold nat_to_string at 1. cbn [nat_to_string_aux].
  assert (Nat.ltb n 10 = false) as -> by (apply Nat.ltb_ge; lia).
  assert (Nat.div n 10 < n)%nat by (apply Nat.div_lt; lia).
  rewrite nat_to_string_aux_acc by lia. unfold nat_to_string.
  rewrite (nat_to_string_aux_fuel n (S (Nat.div n 10))) by lia. reflexivity.
Qed.

Lemma digit_value_digit_char (d : nat) :
  (d < 10)%nat -> digit_value (digit_char d) = Some (Z.of_nat d).
Proof. intros H. do 10 (destruct d as [| d]; [reflexivity |]). lia. Qed.

Lemma take_digits_nat_to_string (n : nat) (rest : list ascii) (acc : Z) (cnt : nat) :
  take_digits (String.list_ascii_of_string (nat_to_string n) ++ rest) acc cnt
  = take_digits rest (acc * 10 ^ Z.of_nat (String.length (nat_to_string n)) + Z.of_nat n)
      (cnt + String.length (nat_to_string n)).
Proof.
  revert rest acc cnt. induction n as [n IH] using lt_wf_ind; intros rest acc cnt.
  destruct (Nat.lt_ge_cases n 10) as [Hs | Hb].
  - rewrite nat_to_string_small by exact Hs. cbn [String.list_ascii_of_string app take_digits].
    rewrite digit_value_digit_char by exact Hs. cbn [String.length]. f_equal; lia.
  - rewrite nat_to_string_step by exact Hb. rewrite list_ascii_app, <- app_assoc.
    rewrite IH by (apply Nat.div_lt; lia).
    cbn [String.list_ascii_of_string app take_digits].
    rewrite digit_value_digit_char by (apply Nat.mod_upper_bound; lia).
    rewrite string_length_append. cbn [String.length].
    pose proof (Nat.div_mod_eq n 10).
    set (L := String.length (nat_to_string (Nat.div n 10))).
    f_equal; [| lia].
    rewrite Nat2Z.inj_add, Z.pow_add_r by lia. cbn [Z.of_nat Z.pow Z.pow_pos Pos.iter].
    nia.
Qed.

Lemma take_digits_end (rest : list ascii) (acc : Z) (cnt : nat) :
  value_end rest -> take_digits rest acc cnt = (acc, cnt, rest).
Proof. destruct rest as [| c rest]; [reflexivity |]. intros [-> | ->]; reflexivity. Qed.

Lemma nat_to_string_head (n : nat) :
  exists d tl, String.list_ascii_of_string (nat_to_string n) = digit_char d :: tl
    /\ (d < 10)%nat /\ (d = 0%nat -> n = 0%nat /\ tl = []).
Proof.
  induction n as [n IH] using lt_wf_ind.
  destruct (Nat.lt_ge_cases n 10) as [Hs | Hb].
  - exists n, []. rewrite nat_to_string_small by exact Hs. split; [reflexivity | split; [exact Hs | intros ->; split; reflexivity]].
  - destruct (IH (Nat.div n 10)) as (d & tl & Hl & Hd & H0); [apply Nat.div_lt; lia |].
    exists d, (tl ++ [digit_char (Nat.modulo n 10)]).
    rewrite nat_to_string_step, list_ascii_app, Hl by exact Hb.
    split; [reflexivity | split; [exact Hd |]].
    intros ->. destruct H0 as [H0 _]; [reflexivity |].
    assert (0 < Nat.div n 10)%nat by (apply Nat.div_str_pos; lia). lia.
Qed.




Lemma json_to_string_obj (fs : list (string * json)) :
  json_to_string (JObj fs) = "{" +:+ print_members fs +:+ "}".
Proof. reflexivity. Qed.

Ltac eval_digit_char H :=
  match type of H with
  | context [digit_char ?x] =>
      let c := eval vm_compute in (digit_char x) in change (digit_char x) with c in H
  end.

Ltac eval_digit_char_goal :=
  repeat match goal with
  | |- context [digit_char ?x] =>
      let c := eval vm_compute in (digit_char x) in change (digit_char x) with c
  end.

Ltac norm_app := repeat (rewrite <- app_assoc || rewrite <- app_comm_cons).

Lemma parse_number_z (z : Z) (rest : list ascii) :
  value_end rest ->
  parse_number (String.list_ascii_of_string (z_to_string z) ++ rest) = Some (JInt z, rest).
Proof.
  intros Hr. unfold z_to_string.
  assert (Hcase : forall (pre : list ascii) (m : nat) (sign : Z),
    (pre = [] /\ sign = 1 \/ pre = ["-"%char] /\ sign = -1) -> sign * Z.of_nat m = z ->
    parse_number (pre ++ String.list_ascii_of_string (nat_to_string m) ++ rest) = Some (JInt z, rest)).
  { intros pre m sign Hpre Hm.
    pose proof (take_digits_nat_to_string m rest 0 0) as Htd.
    rewrite (take_digits_end rest) in Htd by exact Hr.
    destruct (nat_to_string_head m) as (d & tl & Hl & Hd & H0).
    rewrite string_length_chars, Hl in Htd. rewrite Hl.
    unfold parse_number.
    destruct rest as [| c rest']; [| destruct Hr as [-> | ->]];
      (destruct Hpre as [[-> ->] | [-> ->]]; cbn [app];
       (destruct d as [| d];
        [ destruct H0 as [_ ->]; [reflexivity |];
          eval_digit_char Htd; eval_digit_char_goal; cbn -[take_digits] in Htd |- *; rewrite Htd; cbn; repeat f_equal; lia
        | do 9 (destruct d as [| d];
                [ eval_digit_char Htd; eval_digit_char_goal; cbn -[take_digits] in Htd |- *; rewrite Htd; cbn; repeat f_equal; lia |]);
          lia ])). }
  destruct (z <? 0) eqn:Ez.
  - apply Z.ltb_lt in Ez. rewrite list_ascii_app.
    apply (Hcase ["-"%char] _ (-1)); [right; split; reflexivity | rewrite Z2Nat.id; lia].
  - apply Z.ltb_ge in Ez. apply (Hcase [] _ 1); [left; split; reflexivity | rewrite Z2Nat.id; lia].
Qed.

Lemma z_to_string_head (z : Z) :
  exists c tl, String.list_ascii_of_string (z_to_string z) = c :: tl
    /\ (c = "-"%char \/ exists d, (d < 10)%nat /\ c = digit_char d).
Proof.
  unfold z_to_string. destruct (z <? 0).
  - rewrite list_ascii_app. do 2 eexists. split; [reflexivity | left; reflexivity].
  - destruct (nat_to_string_head (Z.to_nat z)) as (d & tl & Hl & Hd & _).
    exists (digit_char d), tl. split; [exact Hl | right; exists d; split; [exact Hd | reflexivity]].
Qed.

Lemma parse_value_number_head (f : nat) (c : ascii) (r : list ascii) :
  (c = "-"%char \/ exists d, (d < 10)%nat /\ c = digit_char d) ->
  parse_value (S f) (c :: r) = parse_number (c :: r).
Proof.
  intros [-> | (d & Hd & ->)]; [reflexivity |].
  do 10 (destruct d as [| d]; [reflexivity |]). lia.
Qed.

Lemma parse_value_z (f : nat) (z : Z) (rest : list ascii) :
  value_end rest ->
  parse_value (S f) (String.list_ascii_of_string (z_to_string z) ++ rest) = Some (JInt z, rest).
Proof.
  intros Hr. rewrite <- (parse_number_z z rest Hr).
  destruct (z_to_string_head z) as (c & tl & Hl & Hc). rewrite Hl. cbn [app].
  apply parse_value_number_head; exact Hc.
Qed.

Lemma parse_value_string_literal (f : nat) (s : string) (rest : list ascii) :
  parse_value (S f) (String.list_ascii_of_string (json_string_literal s) ++ rest)
  = Some (JStr s, rest).
Proof.
  rewrite json_string_literal_chars. norm_app. cbn [app].
  change (parse_value (S f) ("034"%char :: ?r))
    with (match parse_string_body r [] with
          | Some (s, r') => Some (JStr s, r')
          | None => None
          end).
  rewrite parse_string_literal. reflexivity.
Qed.

Lemma parse_members_member (f : nat) (k : string) (x : list ascii) :
  parse_members (S f) (String.list_ascii_of_string (json_string_literal k) ++ ":"%char :: x)
  = match parse_value f x with
    | Some (v, r3) =>
        match skip_ws r3 with
        | ","%char :: r4 =>
            match parse_members f r4 with
            | Some (fs, r5) => Some ((k, v) :: fs, r5)
            | None => None
            end
        | "}"%char :: r4 => Some ([(k, v)], r4)
        | _ => None
        end
    | None => None
    end.
Proof.
  rewrite json_string_literal_chars. norm_app. cbn [app].
  change (parse_members (S f) ("034"%char :: ?r))
    with (match parse_string_body r [] with
          | Some (k, r1) =>
              match skip_ws r1 with
              | ":"%char :: r2 =>
                  match parse_value f r2 with
                  | Some (v, r3) =>
                      match skip_ws r3 with
                      | ","%char :: r4 =>
                          match parse_members f r4 with
                          | Some (fs, r5) => Some ((k, v) :: fs, r5)
                          | None => None
                          end
                      | "}"%char :: r4 => Some ([(k, v)], r4)
                      | _ => None
                      end
                  | None => None
                  end
              | _ => None
              end
          | None => None
          end).
  rewrite parse_string_literal. reflexivity.
Qed.

Lemma parse_value_object (f : nat) (r : list ascii) :
  parse_value (S f) ("{"%char :: "034"%char :: r)
  = match parse_members f ("034"%char :: r) with
    | Some (fs, r') => Some (JObj fs, r')
    | None => None
    end.
Proof. reflexivity. Qed.

Lemma print_members_head (k : string) (v : json) (fs : list (string * json)) :
  exists tl, String.list_ascii_of_string (print_members ((k, v) :: fs)) = "034"%char :: tl.
Proof.
  destruct fs as [| kv fs]; cbn [print_members];
    rewrite list_ascii_app, json_string_literal_chars; eexists; reflexivity.
Qed.

Lemma json_print_parse (n : nat) :
  forall v, (jsize v <= n)%nat -> json_plain v = true ->
  forall fuel rest, (jsize v <= fuel)%nat -> value_end rest ->
  parse_value fuel (String.list_ascii_of_string (json_to_string v) ++ rest) = Some (v, rest).
Proof.
  induction n as [| n IH]; intros v Hn Hp fuel rest Hf Hr.
  { destruct v; cbn [jsize] in Hn; lia. }
  destruct fuel as [| f]; [destruct v; cbn [jsize] in Hf; lia |].
  destruct v as [| b | z | m s | s | vs | fs]; try discriminate Hp.
  - reflexivity.
  - destruct b; reflexivity.
  - apply parse_value_z; exact Hr.
  - apply parse_value_string_literal.
  - rewrite json_to_string_obj. destruct fs as [| [k v] fs]; [reflexivity |].
    rewrite !list_ascii_app. change (String.list_ascii_of_string "{") with ["{"%char].
    change (String.list_ascii_of_string "}") with ["}"%char]. norm_app. cbn [app].
    destruct (print_members_head k v fs) as [tl Htl]. rewrite Htl. cbn [app].
    rewrite parse_value_object. rewrite app_comm_cons, <- Htl.
    assert (Hm : forall fs f rest, fs <> [] ->
      (jsize (JObj fs) <= S n)%nat -> json_plain (JObj fs) = true -> (jsize (JObj fs) <= S f)%nat ->
      parse_members f (String.list_ascii_of_string (print_members fs) ++ "}"%char :: rest)
      = Some (fs, rest)).
    { clear - IH. induction fs as [| [k v] fs IHfs]; intros f rest Hne Hn Hp Hf; [congruence |].
      cbn [json_plain forallb snd] in Hp. apply andb_prop in Hp as [Hpv Hpfs].
      cbn [jsize map list_sum fold_right snd] in Hn, Hf.
      destruct f as [| f]; [lia |].
      destruct fs as [| kv2 fs].
      - cbn [print_members]. rewrite !list_ascii_app. change (String.list_ascii_of_string ":") with [":"%char].
        norm_app. cbn [app]. rewrite parse_members_member.
        rewrite (IH v); [reflexivity | lia | exact Hpv | lia | right; reflexivity].
      - change (print_members ((k, v) :: kv2 :: fs))
          with (json_string_literal k +:+ ":" +:+ json_to_string v +:+ "," +:+ print_members (kv2 :: fs)).
        rewrite !list_ascii_app. change (String.list_ascii_of_string ":") with [":"%char].
        change (String.list_ascii_of_string ",") with [","%char].
        norm_app. cbn [app]. rewrite parse_members_member.
        rewrite (IH v); [| lia | exact Hpv | lia | left; reflexivity]. cbn [skip_ws is_ws].
        rewrite IHfs; [reflexivity | congruence | cbn [jsize map list_sum fold_right snd] in *; lia
                      | exact Hpfs | cbn [jsize map list_sum fold_right snd] in *; lia]. }
    rewrite Hm; [reflexivity | congruence | exact Hn | exact Hp | cbn [jsize] in Hf |- *; lia].
Qed.

Lemma jsize_le_print (n : nat) :
  forall v, (jsize v <= n)%nat -> json_plain v = true ->
  (jsize v <= length (String.list_ascii_of_string (json_to_string v)))%nat.
Proof.
  induction n as [| n IH]; intros v Hn Hp.
  { destruct v; cbn [jsize] in Hn; lia. }
  destruct v as [| b | z | m s | s | vs | fs]; try discriminate Hp.
  - cbn. lia.
  - destruct b; cbn; lia.
  - destruct (z_to_string_head z) as (c & tl & Hl & _). cbn [jsize json_to_string]. rewrite Hl. cbn. lia.
  - cbn [jsize json_to_string]. rewrite json_string_literal_chars. cbn. lia.
  - rewrite json_to_string_obj, !list_ascii_app, length_app. cbn [jsize].
    change (String.list_ascii_of_string "{") with ["{"%char].
    assert (Hm : forall fs, (jsize (JObj fs) <= S n)%nat -> json_plain (JObj fs) = true ->
      (list_sum (map (fun kv => S (jsize (snd kv))) fs)
         <= length (String.list_ascii_of_string (print_members fs)))%nat).
    { clear - IH. induction fs as [| [k v] fs IHfs]; intros Hn Hp; [cbn; lia |].
      cbn [json_plain forallb snd] in Hp. apply andb_prop in Hp as [Hpv Hpfs].
      cbn [jsize map list_sum fold_right snd] in Hn |- *.
      pose proof (IH v ltac:(lia) Hpv) as Hv.
      assert (Hk : (2 <= length (String.list_ascii_of_string (json_string_literal k)))%nat)
        by (rewrite json_string_literal_chars; cbn; rewrite length_app; cbn; lia).
      destruct fs as [| kv2 fs].
      - cbn [print_members map fold_right]. rewrite !list_ascii_app, !length_app. cbn [length]. cbn. lia.
      - change (print_members ((k, v) :: kv2 :: fs))
          with (json_string_literal k +:+ ":" +:+ json_to_string v +:+ "," +:+ print_members (kv2 :: fs)).
        rewrite !list_ascii_app, !length_app.
        specialize (IHfs ltac:(cbn [jsize map list_sum fold_right snd] in *; lia) Hpfs).
        cbn [list_sum map fold_right] in IHfs |- *. cbn [String.list_ascii_of_string length]. lia. }
    specialize (Hm fs Hn Hp). cbn [length].
    rewrite length_app. cbn [String.list_ascii_of_string length]. lia.
Qed.

Lemma json_from_slice_print (v : json) :
  json_plain v = true -> json_from_slice (as_bytes (json_to_string v)) = Some v.
Proof.
  intros Hp. unfold json_from_slice. rewrite map_ascii_of_as_bytes.
  pose proof (jsize_le_print (jsize v) v (le_n _) Hp) as Hl.
  rewrite <- (app_nil_r (String.list_ascii_of_string (json_to_string v))).
  rewrite (json_print_parse (jsize v) v (le_n _) Hp); [reflexivity | | exact I].
  rewrite app_nil_r. lia.
Qed.

Lemma hex_encode_length (bs : list byte) :
  String.length (hex_encode bs) = (2 * length bs)%nat.
Proof. induction bs as [| b bs IH]; cbn [hex_encode String.length length]; lia. Qed.

Lemma string_of_list_ascii_cons (c : ascii) (l : list ascii) :
  String.string_of_list_ascii (c :: l) = String.String c (String.string_of_list_ascii l).
Proof. reflexivity. Qed.

Lemma parse_digits_app (a b : string) (acc : Z) :
  parse_digits (a +:+ b) acc
  = match parse_digits a acc with Some v => parse_digits b v | None => None end.
Proof.
  revert acc. induction a as [| c a IH]; intros acc; [reflexivity |].
  change (String.String c a +:+ b) with (String.String c (a +:+ b)).
  cbn [parse_digits]. destruct (_ && _); [apply IH | reflexivity].
Qed.

Lemma parse_digits_digit (d : nat) (acc : Z) :
  (d < 10)%nat ->
  parse_digits (String.String (digit_char d) String.EmptyString) acc = Some (acc * 10 + Z.of_nat d).
Proof.
  intros Hd. do 10 (destruct d as [| d]; [cbn; f_equal; lia |]). lia.
Qed.

Lemma parse_digits_nat_to_string (m : nat) (acc : Z) :
  parse_digits (nat_to_string m) acc
  = Some (acc * 10 ^ Z.of_nat (String.length (nat_to_string m)) + Z.of_nat m).
Proof.
  revert acc. induction m as [m IH] using lt_wf_ind; intros acc.
  destruct (Nat.lt_ge_cases m 10) as [Hs | Hb].
  - rewrite nat_to_string_small by exact Hs. rewrite parse_digits_digit by exact Hs.
    cbn [String.length]. f_equal; lia.
  - rewrite nat_to_string_step by exact Hb. rewrite parse_digits_app.
    rewrite IH by (apply Nat.div_lt; lia).
    rewrite parse_digits_digit by (apply Nat.mod_upper_bound; lia).
    rewrite string_length_append. cbn [String.length].
    pose proof (Nat.div_mod_eq m 10).
    set (L := String.length (nat_to_string (Nat.div m 10))).
    f_equal. rewrite Nat2Z.inj_add, Z.pow_add_r by lia. cbn [Z.of_nat Z.pow Z.pow_pos Pos.iter].
    nia.
Qed.

Lemma parse_u32_plain (c : ascii) (s : string) :
  c <> "+"%char ->
  parse_u32 (String.String c s)
  = match parse_digits (String.String c s) 0 with
    | Some v => if v <? 2 ^ 32 then Some v else None
    | None => None
    end.
Proof.
  intros Hc. destruct c. cbv [parse_u32].
  split_bits; try reflexivity. exfalso; apply Hc; reflexivity.
Qed.

Lemma parse_u32_z_to_string (n : Z) :
  0 <= n < 2 ^ 32 -> parse_u32 (z_to_string n) = Some n.
Proof.
  intros Hn. unfold z_to_string.
  assert ((n <? 0) = false) as -> by (apply Z.ltb_ge; lia).
  destruct (nat_to_string_head (Z.to_nat n)) as (d & tl & Hl & Hd & _).
  assert (Hs : nat_to_string (Z.to_nat n) = String.String (digit_char d) (String.string_of_list_ascii tl)).
  { rewrite <- (String.string_of_list_ascii_of_string (nat_to_string (Z.to_nat n))), Hl. reflexivity. }
  rewrite Hs, parse_u32_plain, <- Hs.
  - rewrite parse_digits_nat_to_string, Z2Nat.id by lia.
    rewrite Z.mul_0_l, Z.add_0_l. assert ((n <? 2 ^ 32) = true) as -> by (apply Z.ltb_lt; lia). reflexivity.
  - do 10 (destruct d as [| d]; [discriminate |]). lia.
Qed.

Lemma parse_digits_nonneg (s : string) (acc v : Z) :
  0 <= acc -> parse_digits s acc = Some v -> 0 <= v.
Proof.
  revert acc. induction s as [| c s IH]; intros acc Hacc; cbn [parse_digits].
  - intros [= <-]. exact Hacc.
  - destruct ((48 <=? _) && (_ <=? 57)) eqn:E; [| discriminate].
    apply andb_prop in E as [E1 _]. apply Z.leb_le in E1. apply IH. lia.
Qed.

Lemma parse_u32_range (s : string) (v : Z) : parse_u32 s = Some v -> 0 <= v < 2 ^ 32.
Proof.
  unfold parse_u32. set (body := match s with String.String "+" s' => s' | _ => s end).
  destruct body as [| c s'] eqn:Eb; [discriminate |]. rewrite <- Eb.
  destruct (parse_digits body 0) as [v' |] eqn:E; [| discriminate].
  destruct (v' <? 2 ^ 32) eqn:E2; [| discriminate]. intros [= <-].
  apply Z.ltb_lt in E2. pose proof (parse_digits_nonneg _ _ _ (Z.le_refl 0) E). lia.
Qed.

Lemma get_activation_count_range (k : string) (w : World) :
  get_activation_count k w = (Ok (match store w !! activations_entry k with
                                  | Some (EText s) => match parse_u32 s with Some n => n | None => 0 end
                                  | _ => 0
                                  end), w) /\
  0 <= (match store w !! activations_entry k with
        | Some (EText s) => match parse_u32 s with Some n => n | None => 0 end
        | _ => 0
        end) < 2 ^ 32.
Proof.
  cbv [get_activation_count try_get_password gets bind ret].
  destruct (store w !! activations_entry k) as [[| | s] |]; (split; [reflexivity |]); try lia.
  destruct (parse_u32 s) eqn:E; [apply parse_u32_range in E; exact E | lia].
Qed.

Lemma activations_entry_ne_activation (k k' : string) (n : Z) :
  activations_entry k <> activation_entry k' n.
Proof. discriminate. Qed.

Lemma private_key_entry_ne_user (u : string) : private_key_entry u <> keyring_user.
Proof.
  unfold private_key_entry, keyring_user. destruct u as [| c u]; [discriminate |].
  intros H. apply (f_equal String.length) in H. rewrite string_length_append in H.
  cbn [String.length] in H. lia.
Qed.

Section ExtraProofs.

Variable sha3_256 : list byte -> list byte.
Variable clock : nat -> Z.
Variable os_keypair : nat -> Keypair.
Variable system_info : nat -> SystemInfo.
Variable os_random : nat -> nat -> byte.
Variable public_key_decodes : list byte -> bool.
Variable ed25519_sign : list byte -> list byte -> list byte -> list byte.

Local Abbreviation current_identity := (get_current_identity sha3_256 clock os_keypair system_info).
Local Abbreviation validate := (validate_current_license sha3_256 clock os_keypair system_info).
Local Abbreviation deactivate := (deactivate_license sha3_256 clock os_keypair system_info).
Local Abbreviation initialize := (initialize_identity sha3_256 clock os_keypair system_info).
Local Abbreviation activate_paid := (activate_paid_license sha3_256 clock os_keypair system_info).

Lemma get_current_identity_cached (w : World) (identity : ImmutableIdentity.t) :
  identity_cache w = Some identity -> current_identity w = (Ok identity, w).
Proof. intros H. cbv [get_current_identity bind gets ret]. rewrite H. reflexivity. Qed.

(** record_activation: the counter stored under [activations_<key>] reads
    back one higher, and the new [activation_<key>_<n>] entry names the
    user. *)
Theorem record_activation_counts (k u : string) (w : World) (c : Z) :
  fst (get_activation_count k w) = Ok c -> c + 1 < 2 ^ 32 ->
  let w' := snd (record_activation k u w) in
  get_activation_count k w' = (Ok (c + 1), w') /\
  store w' !! activation_entry k (c + 1) = Some (EText u).
Proof.
  intros Hc Hlt. destruct (get_activation_count_range k w) as [Hg Hr].
  rewrite Hg in Hc. injection Hc as Hc. rewrite Hc in Hr, Hg.
  assert (Hrec : record_activation k u w
                 = (Ok tt, mkWorld (<[activation_entry k (c + 1) := EText u]>
                                      (<[activations_entry k := EText (z_to_string (c + 1))]> (store w)))
                                   (identity_cache w) (clock_tick w) (rng_tick w) (sys_tick w))).
  { unfold record_activation, bind at 1. rewrite Hg. reflexivity. }
  cbv zeta. rewrite Hrec. cbn [snd].
  match goal with |- context [get_activation_count k ?w2] =>
    destruct (get_activation_count_range k w2) as [Hg' _] end.
  cbn [store] in Hg' |- *.
  rewrite lookup_insert_ne, lookup_insert_eq, parse_u32_z_to_string in Hg'
    by (lia || apply not_eq_sym, activations_entry_ne_activation).
  split; [exact Hg' | apply lookup_insert_eq].
Qed.

(** activate_paid_license: a key whose [max_activations] is 0 is refused
    with [ActivationLimitReached] whatever the stored counter says, and
    nothing is written. *)
Theorem activate_paid_license_zero_limit (license_key : string) (w w1 : World)
    (identity : ImmutableIdentity.t) (lk : LicenseKey.t) :
  current_identity w = (Ok identity, w1) ->
  decode_license_key license_key = Ok lk ->
  fst (verify_device sha3_256 system_info identity w1) = Ok true ->
  LicenseKey.max_activations lk <= 0 ->
  fst (activate_paid license_key w) = Err ActivationLimitReached /\
  store (snd (activate_paid license_key w)) = store w1.
Proof.
  intros Hid Hdec Hdev Hmax.
  enough (H : activate_paid license_key w
              = (Err ActivationLimitReached,
                 mkWorld (store w1) (identity_cache w1) (clock_tick w1) (rng_tick w1)
                         (S (sys_tick w1)))) by (rewrite H; split; reflexivity).
  unfold activate_paid_license. unfold bind at 1.
  rewrite Hid, Hdec. unfold bind at 1. rewrite verify_device_run in Hdev |- *.
  injection Hdev as Hdev. rewrite Hdev. cbv [negb]. unfold bind at 1.
  match goal with |- context [get_activation_count ?k ?w2] =>
    destruct (get_activation_count_range k w2) as [Hg Hr]; rewrite Hg end.
  destruct (_ <=? _) eqn:E; [reflexivity | apply Z.leb_gt in E; lia].
Qed.

(** get_remaining_days: the count truncates toward zero, so a license that
    expired less than a day ago reports 0 days, as one expiring within the
    next day does; the count is negative only once it expired a full day
    ago. *)
Theorem get_remaining_days_truncates (license : License.t) (w : World) (e : Z) :
  License.expires_at license = Some e ->
  let t := clock (clock_tick w) in
  exists r, fst (get_remaining_days clock license w) = Ok (Some r) /\
    (r = 0 <-> - 86400 < e - t < 86400) /\ (r < 0 <-> e - t <= - 86400).
Proof using clock.
  intros He t. clear sha3_256 system_info public_key_decodes ed25519_sign. unfold get_remaining_days. rewrite He.
  eexists. split; [reflexivity |]. subst t.
  set (x := e - clock (clock_tick w)).
  split; split; intros H; Z.to_euclidean_division_equations; nia.
Qed.

(** Identifier formats: with a 32-byte digest, a user id is ["USN-"] and 32
    hex digits, a license id ["LIC-"] and 24, a license signature and a
    device fingerprint 64 hex digits. *)
Theorem identifier_lengths :
  (forall bs, length (sha3_256 bs) = 32%nat) ->
  (forall public_key fingerprint,
     String.length (derive_user_id sha3_256 public_key fingerprint) = 36%nat) /\
  (forall user_id license_type w,
     exists license_id, fst (generate_license_id sha3_256 clock user_id license_type w) = Ok license_id /\
       String.length license_id = 28%nat) /\
  (forall license_id user_id, String.length (sign_license sha3_256 license_id user_id) = 64%nat) /\
  (forall w, exists fingerprint,
     fst (generate_device_fingerprint sha3_256 system_info w) = Ok fingerprint /\
     String.length fingerprint = 64%nat).
Proof.
  intros Hlen. split; [| split; [| split]].
  - intros pk fp. unfold derive_user_id. rewrite string_length_append, hex_encode_length.
    rewrite length_firstn, Hlen. reflexivity.
  - intros u lt w. eexists. split; [reflexivity |].
    rewrite string_length_append, hex_encode_length, length_firstn, Hlen. reflexivity.
  - intros l u. unfold sign_license. rewrite hex_encode_length, Hlen. reflexivity.
  - intros w. eexists. split; [reflexivity |].
    unfold fingerprint_of. rewrite hex_encode_length, Hlen. reflexivity.
Qed.

(** deactivate_license then validate_current_license: the current license is
    no longer valid. *)
Theorem deactivate_license_then_validate (w w1 w' : World) (identity : ImmutableIdentity.t) :
  current_identity w = (Ok identity, w1) ->
  deactivate w = (Ok tt, w') ->
  fst (validate w') = Ok (false, None).
Proof.
  intros Hid Hd. pose proof (get_current_identity_caches _ _ _ _ _ _ _ Hid) as Hc.
  unfold deactivate_license, bind at 1 in Hd. rewrite Hid in Hd.
  cbv [get_stored_license get_password bind ret fail store_license set_password set_store] in Hd.
  destruct (store w1 !! license_entry (ImmutableIdentity.user_id identity))
    as [[| l |] |] eqn:Hl; try discriminate Hd.
  injection Hd as <-.
  erewrite (validate_current_license_result sha3_256 clock os_keypair system_info _ _ identity);
    [| apply get_current_identity_cached; exact Hc].
  cbn [store].
  destruct (String.eqb_spec (License.user_id l) (ImmutableIdentity.user_id identity)) as [Hu | Hu].
  - rewrite Hu, lookup_insert_eq. cbn [License.is_active]. rewrite andb_false_r. reflexivity.
  - rewrite lookup_insert_ne by (intros Heq; apply Hu; unfold license_entry in Heq;
                                 apply (inj (String.app "license_")) in Heq; congruence).
    rewrite Hl. apply String.eqb_neq in Hu. rewrite Hu. reflexivity.
Qed.

(** deactivate_license twice: the second call succeeds and changes
    nothing. *)
Theorem deactivate_license_idempotent (w w1 w' : World) (identity : ImmutableIdentity.t) :
  current_identity w = (Ok identity, w1) ->
  deactivate w = (Ok tt, w') ->
  deactivate w' = (Ok tt, w').
Proof.
  intros Hid Hd. pose proof (get_current_identity_caches _ _ _ _ _ _ _ Hid) as Hc.
  unfold deactivate_license, bind at 1 in Hd. rewrite Hid in Hd.
  cbv [get_stored_license get_password bind ret fail store_license set_password set_store] in Hd.
  destruct (store w1 !! license_entry (ImmutableIdentity.user_id identity))
    as [[| l |] |] eqn:Hl; try discriminate Hd.
  injection Hd as <-.
  unfold deactivate_license, bind at 1. rewrite (get_current_identity_cached _ identity) by exact Hc.
  cbv [get_stored_license get_password bind ret fail store_license set_password set_store].
  cbn [store identity_cache clock_tick rng_tick sys_tick].
  destruct (String.eqb_spec (License.user_id l) (ImmutableIdentity.user_id identity)) as [Hu | Hu].
  - rewrite <- Hu, lookup_insert_eq. cbn -[insert]. rewrite insert_insert_eq. reflexivity.
  - rewrite lookup_insert_ne by (intros Heq; apply Hu; unfold license_entry in Heq;
                                 apply (inj (String.app "license_")) in Heq; congruence).
    rewrite Hl. cbn -[insert]. rewrite insert_insert_eq. reflexivity.
Qed.

(** deactivate_license with no stored license: [NoEntry], nothing written. *)
Theorem deactivate_license_without_license (w w1 : World) (identity : ImmutableIdentity.t) :
  current_identity w = (Ok identity, w1) ->
  store w1 !! license_entry (ImmutableIdentity.user_id identity) = None ->
  deactivate w = (Err NoEntry, w1).
Proof.
  intros Hid Hl. unfold deactivate_license, bind at 1. rewrite Hid.
  cbv [get_stored_license get_password bind]. rewrite Hl. reflexivity.
Qed.

(** initialize_identity, called again after it succeeded, returns the same
    identity as not new and changes nothing (no key pair drawn, no clock
    read, nothing written). *)
Theorem initialize_identity_second_call (w w1 : World) (identity : ImmutableIdentity.t) (is_new : bool) :
  initialize w = (Ok (identity, is_new), w1) ->
  initialize w1 = (Ok (identity, false), w1).
Proof.
  destruct w as [s c n r k].
  cbv [initialize_identity bind try_get_password gets ret fail generate_keypair now
       generate_device_fingerprint set_password set_store write_cache set_cache store
       identity_cache clock_tick rng_tick sys_tick].
  destruct (s !! keyring_user) as [[i | l | t] |] eqn:Hs; try discriminate.
  - intros [= <- <- <-]. rewrite Hs. reflexivity.
  - destruct (clock n <? 0); [discriminate |]. intros [= <- <- <-].
    rewrite lookup_insert_eq. reflexivity.
Qed.

Lemma initialize_identity_new_inv (w w1 : World) (identity : ImmutableIdentity.t) :
  initialize w = (Ok (identity, true), w1) ->
  let keypair := os_keypair (rng_tick w) in
  let fingerprint := fingerprint_of sha3_256 (system_info (sys_tick w)) in
  identity = ImmutableIdentity.mk
               (derive_user_id sha3_256 (kp_public keypair) fingerprint)
               (kp_public keypair) (clock (clock_tick w)) fingerprint 1 /\
  0 <= clock (clock_tick w) /\
  store w1 !! keyring_user = Some (EIdentity identity) /\
  store w1 !! private_key_entry (ImmutableIdentity.user_id identity)
    = Some (EText (base64_encode (kp_secret keypair))) /\
  identity_cache w1 = Some identity.
Proof.
  destruct w as [s c n r k].
  cbv [initialize_identity bind try_get_password gets ret fail generate_keypair now
       generate_device_fingerprint set_password set_store write_cache set_cache store
       identity_cache clock_tick rng_tick sys_tick].
  destruct (s !! keyring_user) as [[i | l | t] |]; try discriminate.
  destruct (clock n <? 0) eqn:E; [discriminate |]. intros [= <- <-].
  apply Z.ltb_ge in E. cbn [store identity_cache].
  split; [reflexivity | split; [exact E | split; [apply lookup_insert_eq | split; [| reflexivity]]]].
  rewrite lookup_insert_ne by (apply not_eq_sym, private_key_entry_ne_user).
  apply lookup_insert_eq.
Qed.

Lemma sign_data_store (identity : ImmutableIdentity.t) (data : list byte) (w w' : World) :
  store w = store w' ->
  sign_data public_key_decodes ed25519_sign identity data w'
  = (fst (sign_data public_key_decodes ed25519_sign identity data w), w').
Proof.
  intros Hs. cbv [sign_data bind get_password ret fail]. rewrite Hs.
  destruct (store w' !! _) as [[| | s] |]; try reflexivity.
  destruct (base64_decode s); try reflexivity.
  destruct (negb _); try reflexivity.
  destruct (public_key_from_bytes _ _); reflexivity.
Qed.

(** sign_data after initialize_identity created the identity: the private
    key written as base64 text is read back intact and used with the
    identity's public key. *)
Theorem sign_data_after_initialize (w w1 : World) (identity : ImmutableIdentity.t) (data : list byte) :
  initialize w = (Ok (identity, true), w1) ->
  length (kp_secret (os_keypair (rng_tick w))) = 32%nat ->
  public_key_from_bytes public_key_decodes (ImmutableIdentity.public_key identity)
    = Ok (ImmutableIdentity.public_key identity) ->
  sign_data public_key_decodes ed25519_sign identity data w1
  = (Ok (ed25519_sign (kp_secret (os_keypair (rng_tick w)))
           (ImmutableIdentity.public_key identity) data), w1).
Proof.
  intros H Hlen Hpk. destruct (initialize_identity_new_inv _ _ _ H) as (_ & _ & _ & Hpriv & _).
  cbv [sign_data bind get_password ret fail]. rewrite Hpriv.
  rewrite base64_roundtrip, Hlen. cbn [Nat.eqb negb]. rewrite Hpk. reflexivity.
Qed.

(** After destroy_identity, the destroyed identity can no longer sign:
    sign_data finds no private key, and create_identity_proof fails (with
    [NoEntry], or [ClockError] before the epoch). *)
Theorem destroy_identity_revokes_signing (w w' : World) (identity : ImmutableIdentity.t) :
  identity_cache w = Some identity ->
  destroy_identity w = (Ok tt, w') ->
  (forall data, sign_data public_key_decodes ed25519_sign identity data w' = (Err NoEntry, w')) /\
  fst (create_identity_proof clock os_random public_key_decodes ed25519_sign identity w')
  = Err (if clock (clock_tick w') <? 0 then ClockError else NoEntry).
Proof.
  intros Hc Hd.
  cbv [destroy_identity bind gets delete_password set_store write_cache set_cache ret] in Hd.
  rewrite Hc in Hd. injection Hd as <-.
  assert (Hs : forall data, sign_data public_key_decodes ed25519_sign identity data
      (mkWorld (delete keyring_user (delete (private_key_entry (ImmutableIdentity.user_id identity))
                                        (store w))) None (clock_tick w) (rng_tick w) (sys_tick w))
      = (Err NoEntry, mkWorld (delete keyring_user (delete (private_key_entry
                (ImmutableIdentity.user_id identity)) (store w))) None (clock_tick w) (rng_tick w) (sys_tick w))).
  { intros data. cbv [sign_data bind get_password]. cbn [store].
    rewrite lookup_delete_ne by (apply not_eq_sym, private_key_entry_ne_user).
    rewrite lookup_delete_eq. reflexivity. }
  split; [exact Hs |].
  cbv [create_identity_proof bind now fill_bytes ret fail]. cbn [clock_tick].
  destruct (clock (clock_tick w) <? 0); [reflexivity |].
  rewrite (sign_data_store _ _ (mkWorld (delete keyring_user (delete (private_key_entry
                (ImmutableIdentity.user_id identity)) (store w))) None (clock_tick w) (rng_tick w) (sys_tick w)))
    by reflexivity.
  rewrite Hs. reflexivity.
Qed.

Lemma license_key_json_roundtrip (k : string) (t : LicenseType) (d : option Z) (m : Z) :
  (forall x, d = Some x -> - 2 ^ 63 <= x < 2 ^ 63) -> 0 <= m < 2 ^ 32 ->
  license_key_of_json (license_key_to_json (LicenseKey.mk k t d m (features_for t)))
  = Some (LicenseKey.mk k t d m (features_for t)).
Proof.
  intros Hd Hm.
  assert (Hu : (0 <=? m) && (m <? 2 ^ 32) = true).
  { apply andb_true_intro. split; [apply Z.leb_le | apply Z.ltb_lt]; lia. }
  unfold license_key_of_json, license_key_to_json, optional, required, occurrences.
  destruct d as [x |].
  - assert (Hi : (- 2 ^ 63 <=? x) && (x <? 2 ^ 63) = true).
    { specialize (Hd x eq_refl). apply andb_true_intro.
      split; [apply Z.leb_le | apply Z.ltb_lt]; lia. }
    destruct t; simpl; rewrite Hu, Hi; reflexivity.
  - destruct t; simpl; rewrite Hu; reflexivity.
Qed.

Lemma generate_license_key_payload (t : LicenseType) (d : option Z) (m : Z) (w : World) :
  (forall x, d = Some x -> - 2 ^ 63 <= x < 2 ^ 63) -> 0 <= m < 2 ^ 32 ->
  let key_bytes := map (os_random (rng_tick w)) (seq 0 32) in
  exists key,
    generate_license_key os_random t d m w
    = (Ok key, mkWorld (store w) (identity_cache w) (clock_tick w) (S (rng_tick w)) (sys_tick w)) /\
    decode_license_key key = Ok (LicenseKey.mk (hex_encode key_bytes) t d m (features_for t)).
Proof.
  intros Hd Hm key_bytes. eexists. split; [reflexivity |].
  fold (features_for t). unfold decode_license_key.
  rewrite base64_roundtrip, json_from_slice_print by (destruct t, d; reflexivity).
  rewrite license_key_json_roundtrip by assumption. cbn [LicenseKey.key].
  unfold key_bytes. rewrite hex_encode_length, length_map, length_seq. reflexivity.
Qed.

(** generate_license_key: only the random generator advances, and the key
    decodes (base64, then JSON) to a 64-hex-digit key token, the requested
    type, duration and activation limit, and the feature set of that type. *)
Theorem generate_license_key_decodes (t : LicenseType) (d : option Z) (m : Z) (w : World) :
  (forall x, d = Some x -> - 2 ^ 63 <= x < 2 ^ 63) -> 0 <= m < 2 ^ 32 ->
  let key_bytes := map (os_random (rng_tick w)) (seq 0 32) in
  exists key,
    generate_license_key os_random t d m w
    = (Ok key, mkWorld (store w) (identity_cache w) (clock_tick w) (S (rng_tick w)) (sys_tick w)) /\
    decode_license_key key = Ok (LicenseKey.mk (hex_encode key_bytes) t d m (features_for t)) /\
    String.length (hex_encode key_bytes) = 64%nat.
Proof.
  intros Hd Hm key_bytes.
  destruct (generate_license_key_payload t d m w Hd Hm) as (key & Hgen & Hdec).
  exists key. split; [exact Hgen | split; [exact Hdec |]].
  unfold key_bytes. rewrite hex_encode_length, length_map, length_seq. reflexivity.
Qed.

Lemma record_activation_result (k u : string) (w : World) :
  exists n, record_activation k u w
  = (Ok tt, mkWorld (<[activation_entry k n := EText u]>
                       (<[activations_entry k := EText (z_to_string n)]> (store w)))
                    (identity_cache w) (clock_tick w) (rng_tick w) (sys_tick w)).
Proof.
  eexists. unfold record_activation, bind at 1.
  rewrite (proj1 (get_activation_count_range k w)). reflexivity.
Qed.

Lemma activate_paid_license_success_inv (license_key : string) (w w2 : World) (license : License.t) :
  activate_paid license_key w = (Ok license, w2) ->
  exists identity lk,
    fst (current_identity w) = Ok identity /\
    decode_license_key license_key = Ok lk /\
    identity_cache w2 = Some identity /\
    store w2 !! license_entry (ImmutableIdentity.user_id identity) = Some (ELicense license) /\
    License.user_id license = ImmutableIdentity.user_id identity /\
    License.device_fingerprint license = ImmutableIdentity.device_fingerprint identity /\
    License.signature license
      = sign_license sha3_256 (License.license_id license) (License.user_id license) /\
    License.is_active license = true /\
    License.license_type license = LicenseKey.license_type lk /\
    License.features license = LicenseKey.features lk /\
    License.max_activations license = LicenseKey.max_activations lk /\
    1 <= License.activation_count license <= LicenseKey.max_activations lk.
Proof.
  unfold activate_paid_license, bind at 1.
  destruct (current_identity w) as [[identity | e] w1] eqn:Hid; [| discriminate].
  pose proof (get_current_identity_caches _ _ _ _ _ _ _ Hid) as Hc.
  destruct (decode_license_key license_key) as [lk | e] eqn:Hdec; [| discriminate].
  unfold bind at 1. rewrite verify_device_run.
  destruct (String.eqb _ _); cbv [negb]; [| discriminate].
  destruct w1 as [s cc n r k]. cbn [store identity_cache clock_tick rng_tick sys_tick] in Hc |- *.
  unfold bind at 1.
  destruct (get_activation_count (LicenseKey.key lk) (mkWorld s cc n r (S k)))
    as [[c | e] w1'] eqn:Hg';
    destruct (get_activation_count_range (LicenseKey.key lk) (mkWorld s cc n r (S k)))
      as [Hg Hr];
    rewrite Hg' in Hg; [| discriminate].
  injection Hg as Hcnt ->. cbn [store] in Hcnt, Hr. rewrite <- Hcnt in Hr.
  destruct (LicenseKey.max_activations lk <=? c) eqn:E; [discriminate |]. apply Z.leb_gt in E.
  cbv [generate_license_id now or_panic store_license set_password set_store gets bind ret fail
       store identity_cache clock_tick rng_tick sys_tick].
  destruct (LicenseKey.duration_days lk) as [d |];
    [destruct (chrono_add_days _ d); [| discriminate] |]; cbv beta iota zeta;
    match goal with |- context [record_activation ?k ?u ?w3] =>
      destruct (record_activation_result k u w3) as [n' ->] end;
    intros [= <- <-]; cbn;
    exists identity, lk; (split; [reflexivity |]); (split; [reflexivity |]); (split; [exact Hc |]);
    (split; [rewrite !lookup_insert_ne by (apply not_eq_sym; first
      [ apply license_entry_ne_activations | apply license_entry_ne_activation ]);
             apply lookup_insert_eq |]);
    repeat split; lia.
Qed.

(** activate_paid_license then validate_current_license: a license that
    was just activated is the current valid license, as long as its expiry
    (if any) is not before the next clock reading. *)
Theorem activate_paid_license_then_validate (license_key : string) (w w2 : World) (license : License.t) :
  activate_paid license_key w = (Ok license, w2) ->
  (forall e, License.expires_at license = Some e -> clock (clock_tick w2) <= e) ->
  fst (validate w2) = Ok (true, Some license).
Proof.
  intros H Hexp.
  destruct (activate_paid_license_success_inv _ _ _ _ H)
    as (identity & lk & _ & _ & Hc & Hl & Hu & Hfp & Hsig & Hact & _).
  erewrite (validate_current_license_result sha3_256 clock os_keypair system_info _ _ identity);
    [| apply get_current_identity_cached; exact Hc].
  rewrite Hl, Hu, Hfp, !String.eqb_refl. cbn [andb].
  unfold verify_license_signature. rewrite Hsig, Hu, String.eqb_refl, Hact.
  destruct (License.expires_at license) as [e |] eqn:He; [| reflexivity].
  specialize (Hexp e eq_refl). replace (e <? clock (clock_tick w2)) with false
    by (symmetry; apply Z.ltb_ge; exact Hexp). reflexivity.
Qed.

(** generate_license_key then activate_paid_license: on a registered device
    with no earlier activation of the key, the generated key activates a
    license of the requested type, with that type's features and the
    requested activation limit. *)
Theorem generate_license_key_then_activate (t : LicenseType) (d : option Z) (m : Z)
    (w w1 w' w2 : World) (key : string) (identity : ImmutableIdentity.t) :
  (forall x, d = Some x -> - 2 ^ 63 <= x < 2 ^ 63) -> 0 < m < 2 ^ 32 ->
  generate_license_key os_random t d m w = (Ok key, w1) ->
  current_identity w' = (Ok identity, w2) ->
  fingerprint_of sha3_256 (system_info (sys_tick w2)) = ImmutableIdentity.device_fingerprint identity ->
  store w2 !! activations_entry (hex_encode (map (os_random (rng_tick w)) (seq 0 32))) = None ->
  (forall x, d = Some x ->
     in_utc_range (clock (S (clock_tick w2))) /\
     in_utc_range (clock (S (clock_tick w2)) + days x)) ->
  exists license w3,
    activate_paid key w' = (Ok license, w3) /\
    License.user_id license = ImmutableIdentity.user_id identity /\
    License.license_type license = t /\
    License.features license = features_for t /\
    License.max_activations license = m /\
    store w3 !! license_entry (ImmutableIdentity.user_id identity) = Some (ELicense license).
Proof.
  intros Hd Hm Hgen Hid Hdev Hcount Hrange.
  destruct (generate_license_key_payload t d m w Hd ltac:(lia)) as (key' & Hgen' & Hdec).
  rewrite Hgen in Hgen'. injection Hgen' as <- _.
  destruct (activate_paid_license_first_activation sha3_256 clock os_keypair system_info
              key w' w2 identity _ Hid Hdec Hdev Hcount ltac:(cbn; lia))
    as [Hok _].
  destruct Hok as (license & w3 & Hrun & Hu & Htype & _ & Hl).
  { intros x Hx. cbn in Hx. destruct (Hrange x Hx) as [Ht Hr].
    exact (chrono_add_days_in_range _ _ Ht Hr). }
  destruct (activate_paid_license_success_inv _ _ _ _ Hrun)
    as (identity' & lk & _ & Hdec' & _ & _ & _ & _ & _ & _ & _ & Hfeat & Hmax & _).
  rewrite Hdec in Hdec'. injection Hdec' as <-.
  exists license, w3. repeat split; assumption.
Qed.

End ExtraProofs.

Lemma validate_current_license_fails_closed_witness :
  get_current_identity toy_sha3 toy_clock toy_keypair toy_system_info
    (world_with_license (toy_license "LIC-1" "LIC-1"))
  = (Ok toy_identity, world_with_license (toy_license "LIC-1" "LIC-1")) /\
  fst (validate_current_license toy_sha3 toy_clock toy_keypair toy_system_info
         (world_with_license (toy_license "LIC-1" "LIC-1")))
  = Ok (true, Some (toy_license "LIC-1" "LIC-1")).
Proof.
  split; [reflexivity |].
  apply (validate_current_license_fails_closed toy_sha3 toy_clock toy_keypair toy_system_info
           _ (world_with_license (toy_license "LIC-1" "LIC-1")) toy_identity);
    [reflexivity |].
  repeat split; try reflexivity.
  intros e He. injection He as <-. vm_compute. discriminate.
Defined.

Lemma sign_license_tamper_evident_witness :
  fst (validate_current_license toy_sha3 toy_clock toy_keypair toy_system_info
         (world_with_license (toy_license "LIC-2" "LIC-1")))
  = Ok (false, None).
Proof.
  apply (sign_license_tamper_evident toy_sha3 toy_clock toy_keypair toy_system_info
           _ (world_with_license (toy_license "LIC-2" "LIC-1")) toy_identity
           (toy_license "LIC-2" "LIC-1") "LIC-1").
  - intros a b H. exact H.
  - reflexivity.
  - reflexivity.
  - reflexivity.
  - left. discriminate.
Defined.

Lemma deactivate_license_soft_witness :
  exists license license',
    store (world_with_license (toy_license "LIC-1" "LIC-1"))
      !! license_entry (ImmutableIdentity.user_id toy_identity) = Some (ELicense license) /\
    store (snd (deactivate_license toy_sha3 toy_clock toy_keypair toy_system_info
                  (world_with_license (toy_license "LIC-1" "LIC-1"))))
      !! license_entry (License.user_id license) = Some (ELicense license') /\
    License.is_active license' = false.
Proof.
  destruct (deactivate_license_soft toy_sha3 toy_clock toy_keypair toy_system_info
              (world_with_license (toy_license "LIC-1" "LIC-1"))
              (world_with_license (toy_license "LIC-1" "LIC-1"))
              (snd (deactivate_license toy_sha3 toy_clock toy_keypair toy_system_info
                      (world_with_license (toy_license "LIC-1" "LIC-1"))))
              toy_identity)
    as (license & license' & H1 & H2 & H3 & _); [reflexivity | reflexivity |].
  exists license, license'. split; [exact H1 | split; [exact H2 | exact H3]].
Defined.

Lemma activate_trial_fresh_device_check_witness :
  fingerprint_of toy_sha3 (toy_system_info_two_interfaces 1)
    <> fingerprint_of toy_sha3 (toy_system_info_two_interfaces 0) /\
  fst (activate_trial toy_sha3 toy_clock toy_keypair toy_system_info_two_interfaces fresh_world)
    = Err DeviceVerificationFailed.
Proof.
  assert (Hne : fingerprint_of toy_sha3 (toy_system_info_two_interfaces 1)
                <> fingerprint_of toy_sha3 (toy_system_info_two_interfaces 0))
    by (vm_compute; discriminate).
  split; [exact Hne |].
  exact (proj1 (proj1 (activate_trial_fresh_device_check toy_sha3 toy_clock toy_keypair
                         toy_system_info_two_interfaces fresh_world
                         eq_refl eq_refl ltac:(vm_compute; discriminate)) Hne)).
Defined.

Lemma activate_trial_once_witness :
  exists license w1,
    activate_trial toy_sha3 toy_clock toy_keypair toy_system_info fresh_world
      = (Ok license, w1) /\
    let w2 := run_calls toy_sha3 toy_clock toy_keypair toy_system_info
                [CallValidate; CallDeactivate; CallActivateTrial] w1 in
    activate_trial toy_sha3 toy_clock toy_keypair toy_system_info w2 = (Err TrialAlreadyUsed, w2).
Proof.
  destruct (activate_trial toy_sha3 toy_clock toy_keypair toy_system_info fresh_world)
    as [[license | e] w1] eqn:E; [| vm_compute in E; discriminate].
  destruct (activate_trial_once toy_sha3 toy_clock toy_keypair toy_system_info
              fresh_world w1 license E) as [_ H].
  exists license, w1. split; [reflexivity | apply H].
Defined.

(** Counterexample to C5: a trial is activated on a fresh keyring, so a
    second [activate_trial] fails; after [destroy_identity] the recreated
    identity has a new [user_id] and [activate_trial] grants a trial again,
    although no trial-used marker was ever cleared. *)
Lemma trial_granted_again_after_destroy_identity :
  let w1 := snd (activate_trial toy_sha3 toy_clock toy_keypair toy_system_info fresh_world) in
  fst (activate_trial toy_sha3 toy_clock toy_keypair toy_system_info w1) = Err TrialAlreadyUsed /\
  exists license w2,
    activate_trial toy_sha3 toy_clock toy_keypair toy_system_info (snd (destroy_identity w1))
      = (Ok license, w2) /\
    License.license_type license = Trial.
Proof.
  vm_compute. split; [reflexivity |]. do 2 eexists. split; reflexivity.
Defined.

Lemma destroy_identity_then_activate_trial_witness :
  let w := snd (activate_trial toy_sha3 toy_clock toy_keypair toy_system_info fresh_world) in
  exists license w2,
    activate_trial toy_sha3 toy_clock toy_keypair toy_system_info (snd (destroy_identity w))
      = (Ok license, w2) /\
    License.license_type license = Trial.
Proof.
  intros w.
  destruct (identity_cache w) as [identity |] eqn:Hc; [| vm_compute in Hc; discriminate].
  pose proof (destroy_identity_then_activate_trial toy_sha3 toy_clock toy_keypair toy_system_info
                w identity Hc ltac:(vm_compute; discriminate)) as H.
  cbv zeta in H. destruct H as (_ & _ & _ & _ & H).
  destruct H as (license & w2 & H1 & _ & H2 & _);
    [vm_compute; reflexivity | reflexivity | vm_compute; split; discriminate |].
  exists license, w2. split; [exact H1 | exact H2].
Defined.



(* ================================================================== *)
(** ** Witnesses of the further properties, on the toy instances *)

Lemma record_activation_counts_witness :
  fst (get_activation_count "k" fresh_world) = Ok 0 /\
  get_activation_count "k" (snd (record_activation "k" "USN-1" fresh_world))
  = (Ok (0 + 1), snd (record_activation "k" "USN-1" fresh_world)).
Proof.
  split; [reflexivity |].
  exact (proj1 (record_activation_counts "k" "USN-1" fresh_world 0
                  ltac:(reflexivity) ltac:(lia))).
Defined.

Lemma activate_paid_license_zero_limit_witness :
  fst (activate_paid_license toy_sha3 toy_clock toy_keypair toy_system_info
         (base64_encode (as_bytes (json_to_string (license_key_to_json
            (LicenseKey.mk (LicenseKey.key toy_license_key) Personal (Some 365) 0
               LicenseFeatures.personal)))))
         (world_with_license (toy_license "LIC-1" "LIC-1")))
  = Err ActivationLimitReached.
Proof.
  refine (proj1 (activate_paid_license_zero_limit toy_sha3 toy_clock toy_keypair toy_system_info
           _ (world_with_license (toy_license "LIC-1" "LIC-1"))
           (world_with_license (toy_license "LIC-1" "LIC-1"))
           toy_identity (LicenseKey.mk (LicenseKey.key toy_license_key) Personal (Some 365) 0
                           LicenseFeatures.personal) _ _ _ _)).
  - reflexivity.
  - vm_compute. reflexivity.
  - vm_compute. reflexivity.
  - cbn. lia.
Defined.

Lemma get_remaining_days_truncates_witness :
  exists r, fst (get_remaining_days toy_clock (toy_license "LIC-1" "LIC-1") fresh_world)
            = Ok (Some r) /\ (r = 0 <-> - 86400 < 1700000000 + days 30 - toy_clock 0 < 86400).
Proof.
  destruct (get_remaining_days_truncates toy_clock (toy_license "LIC-1" "LIC-1") fresh_world
              (1700000000 + days 30) ltac:(reflexivity)) as (r & H1 & H2 & _).
  exists r. split; [exact H1 | exact H2].
Defined.

Lemma identifier_lengths_witness :
  String.length (derive_user_id (fun _ => repeat Byte.x00 32) [] "") = 36%nat.
Proof.
  exact (proj1 (identifier_lengths (fun _ => repeat Byte.x00 32) toy_clock toy_system_info
                  (fun _ => eq_refl)) [] "").
Defined.

Lemma deactivate_license_then_validate_witness :
  fst (validate_current_license toy_sha3 toy_clock toy_keypair toy_system_info
         (snd (deactivate_license toy_sha3 toy_clock toy_keypair toy_system_info
                 (world_with_license (toy_license "LIC-1" "LIC-1")))))
  = Ok (false, None).
Proof.
  apply (deactivate_license_then_validate toy_sha3 toy_clock toy_keypair toy_system_info
           (world_with_license (toy_license "LIC-1" "LIC-1"))
           (world_with_license (toy_license "LIC-1" "LIC-1")) _ toy_identity).
  - reflexivity.
  - vm_compute. reflexivity.
Defined.

Lemma deactivate_license_idempotent_witness :
  let w' := snd (deactivate_license toy_sha3 toy_clock toy_keypair toy_system_info
                   (world_with_license (toy_license "LIC-1" "LIC-1"))) in
  deactivate_license toy_sha3 toy_clock toy_keypair toy_system_info w' = (Ok tt, w').
Proof.
  apply (deactivate_license_idempotent toy_sha3 toy_clock toy_keypair toy_system_info
           (world_with_license (toy_license "LIC-1" "LIC-1"))
           (world_with_license (toy_license "LIC-1" "LIC-1")) _ toy_identity).
  - reflexivity.
  - vm_compute. reflexivity.
Defined.

Lemma deactivate_license_without_license_witness :
  deactivate_license toy_sha3 toy_clock toy_keypair toy_system_info
    (mkWorld ∅ (Some toy_identity) 0 0 0)
  = (Err NoEntry, mkWorld ∅ (Some toy_identity) 0 0 0).
Proof.
  apply (deactivate_license_without_license toy_sha3 toy_clock toy_keypair toy_system_info
           _ _ toy_identity); reflexivity.
Defined.

Lemma initialize_identity_second_call_witness :
  exists identity w1,
    initialize_identity toy_sha3 toy_clock toy_keypair toy_system_info fresh_world
      = (Ok (identity, true), w1) /\
    initialize_identity toy_sha3 toy_clock toy_keypair toy_system_info w1
      = (Ok (identity, false), w1).
Proof.
  destruct (initialize_identity toy_sha3 toy_clock toy_keypair toy_system_info fresh_world)
    as [[[identity is_new] | e] w1] eqn:E; [| vm_compute in E; discriminate].
  assert (is_new = true) as -> by (vm_compute in E; congruence).
  exists identity, w1. split; [reflexivity |].
  exact (initialize_identity_second_call toy_sha3 toy_clock toy_keypair toy_system_info
           fresh_world w1 identity true E).
Defined.

Lemma sign_data_after_initialize_witness :
  exists identity w1,
    initialize_identity toy_sha3 toy_clock toy_keypair toy_system_info fresh_world
      = (Ok (identity, true), w1) /\
    sign_data (fun _ => true) (fun sk pk data => sk ++ pk ++ data) identity [Byte.x2a] w1
      = (Ok (kp_secret (toy_keypair 0) ++ ImmutableIdentity.public_key identity ++ [Byte.x2a]), w1).
Proof.
  destruct (initialize_identity toy_sha3 toy_clock toy_keypair toy_system_info fresh_world)
    as [[[identity is_new] | e] w1] eqn:E; [| vm_compute in E; discriminate].
  pose proof E as E'. vm_compute in E'. injection E' as Hi Hn Hw. subst identity is_new w1.
  eexists. eexists. split; [reflexivity |].
  exact (sign_data_after_initialize toy_sha3 toy_clock toy_keypair toy_system_info
           (fun _ => true) (fun sk pk data => sk ++ pk ++ data) fresh_world _ _ [Byte.x2a]
           E ltac:(reflexivity) ltac:(vm_compute; reflexivity)).
Defined.

Lemma destroy_identity_revokes_signing_witness :
  let w' := snd (destroy_identity (world_with_license (toy_license "LIC-1" "LIC-1"))) in
  sign_data (fun _ => true) (fun sk _ _ => sk) toy_identity [] w' = (Err NoEntry, w').
Proof.
  exact (proj1 (destroy_identity_revokes_signing toy_clock (fun _ _ => Byte.x00) (fun _ => true)
                  (fun sk _ _ => sk) (world_with_license (toy_license "LIC-1" "LIC-1")) _
                  toy_identity eq_refl ltac:(vm_compute; reflexivity)) []).
Defined.

Lemma generate_license_key_decodes_witness :
  exists key,
    generate_license_key (fun _ _ => Byte.x00) Personal (Some 365) 3 fresh_world
      = (Ok key, mkWorld ∅ None 0 1 0) /\
    decode_license_key key
      = Ok (LicenseKey.mk (hex_encode (repeat Byte.x00 32)) Personal (Some 365) 3
              LicenseFeatures.personal).
Proof.
  destruct (generate_license_key_decodes (fun _ _ => Byte.x00) Personal (Some 365) 3 fresh_world)
    as (key & H1 & H2 & _).
  - intros x Hx. injection Hx as <-. lia.
  - lia.
  - exists key. split; [exact H1 | exact H2].
Defined.

Lemma activate_paid_license_then_validate_witness :
  exists license w2,
    activate_paid_license toy_sha3 toy_clock toy_keypair toy_system_info toy_plain_key
      (mkWorld ∅ (Some toy_identity) 0 0 0) = (Ok license, w2) /\
    fst (validate_current_license toy_sha3 toy_clock toy_keypair toy_system_info w2)
      = Ok (true, Some license).
Proof.
  destruct (activate_paid_license toy_sha3 toy_clock toy_keypair toy_system_info toy_plain_key
              (mkWorld ∅ (Some toy_identity) 0 0 0))
    as [[license | e] w2] eqn:E; [| vm_compute in E; discriminate].
  exists license, w2. split; [reflexivity |].
  apply (activate_paid_license_then_validate toy_sha3 toy_clock toy_keypair toy_system_info
           toy_plain_key _ _ _ E).
  pose proof (f_equal (fun r => match fst r with
                                | Ok l => License.expires_at l
                                | Err _ => None
                                end) E) as Hx.
  pose proof (f_equal (fun r => clock_tick (snd r)) E) as Ht.
  vm_compute in Hx, Ht. clear E.
  destruct license, w2. cbn in Hx, Ht |- *.
  intros e He. rewrite He in Hx. injection Hx as <-. rewrite <- Ht. vm_compute. discriminate.
Defined.

Lemma generate_license_key_then_activate_witness :
  exists key w1 license w3,
    generate_license_key (fun _ _ => Byte.x00) Personal (Some 365) 3 fresh_world = (Ok key, w1) /\
    activate_paid_license toy_sha3 toy_clock toy_keypair toy_system_info key
      (mkWorld ∅ (Some toy_identity) 0 0 0) = (Ok license, w3) /\
    License.features license = LicenseFeatures.personal.
Proof.
  destruct (generate_license_key (fun _ _ => Byte.x00) Personal (Some 365) 3 fresh_world)
    as [[key | e] w1] eqn:E; [| vm_compute in E; discriminate].
  destruct (generate_license_key_then_activate toy_sha3 toy_clock toy_keypair toy_system_info
              (fun _ _ => Byte.x00) Personal (Some 365) 3 fresh_world w1
              (mkWorld ∅ (Some toy_identity) 0 0 0) (mkWorld ∅ (Some toy_identity) 0 0 0)
              key toy_identity)
    as (license & w3 & H1 & _ & _ & H4 & _).
  - intros x Hx. injection Hx as <-. lia.
  - lia.
  - exact E.
  - reflexivity.
  - reflexivity.
  - reflexivity.
  - intros x Hx. injection Hx as <-. split; vm_compute; split; discriminate.
  - exists key, w1, license, w3. split; [reflexivity | split; [exact H1 | exact H4]].
Defined.

